(** * renderHTML: the element core, its accumulation rules and its serialisation

    A shallow embedding of [strings.go] (the escaped and the raw text
    entity) and of the element core of the package: the [element]
    struct, its [add*] and [get*] methods, [String], [newElement], the
    root element [Html] with its own [String], the untagged [Container],
    and the attribute setters [ContentEditable], [Dir], [Translate],
    [AutoCapitalize], [Class], [Style] and [Id].

    Go strings are byte sequences: they are [string] values here, one
    [ascii] per byte.

    The element is modelled twice.  In the first model a content item
    that is an element is the element itself, and a method that writes
    to its receiver returns the receiver's new state.  In the second
    ([Heap]) elements lie in a store and content items point to them, as
    in the source.  [Stringer_String_reified] relates the two. *)

From Stdlib Require Import String Ascii List ZArith Lia Bool DecimalString.
From Stdlib Require Import Btauto.
Import ListNotations.
Open Scope string_scope.

#[local] Set Warnings "-register-all".

(* ================================================================== *)
(** * The parts of the Go standard library the package calls *)
(* ================================================================== *)

Module Go.

(** The byte [0x22], the double quote. *)
Definition dquote : ascii := ascii_of_nat 34.
Definition dq : string := String dquote "".

Definition isByte (n : nat) (c : ascii) : bool := Nat.eqb (nat_of_ascii c) n.

Fixpoint reverse (s acc : string) : string :=
  match s with
  | EmptyString => acc
  | String c t => reverse t (String c acc)
  end.

(** ** [strings.TrimSpace]

    White space is what [unicode.IsSpace] accepts: the six ASCII
    characters of the [asciiSpace] table, and U+0085, U+00A0, U+1680,
    U+2000..U+200A, U+2028, U+2029, U+202F, U+205F, U+3000, which are
    met here in their UTF-8 encoding. *)

Definition asciiSpace (c : ascii) : bool :=
  isByte 9 c || isByte 10 c || isByte 11 c || isByte 12 c || isByte 13 c
  || isByte 32 c.

(** U+0085 is [C2 85] and U+00A0 is [C2 A0]. *)
Definition space2 (b0 b1 : ascii) : bool :=
  isByte 194 b0 && (isByte 133 b1 || isByte 160 b1).

(** U+1680 is [E1 9A 80]; U+2000..U+200A are [E2 80 80] .. [E2 80 8A];
    U+2028, U+2029, U+202F are [E2 80 A8], [E2 80 A9], [E2 80 AF];
    U+205F is [E2 81 9F]; U+3000 is [E3 80 80]. *)
Definition space3 (b0 b1 b2 : ascii) : bool :=
  (isByte 225 b0 && isByte 154 b1 && isByte 128 b2)
  || (isByte 226 b0 && isByte 128 b1
      && ((Nat.leb 128 (nat_of_ascii b2) && Nat.leb (nat_of_ascii b2) 138)
          || isByte 168 b2 || isByte 169 b2 || isByte 175 b2))
  || (isByte 226 b0 && isByte 129 b1 && isByte 159 b2)
  || (isByte 227 b0 && isByte 128 b1 && isByte 128 b2).

(** [TrimLeftFunc(s, unicode.IsSpace)]: runes are decoded from the front. *)
Fixpoint trimLeft (s : string) : string :=
  match s with
  | EmptyString => EmptyString
  | String b0 t0 =>
    if asciiSpace b0 then trimLeft t0 else
    match t0 with
    | EmptyString => s
    | String b1 t1 =>
      if space2 b0 b1 then trimLeft t1 else
      match t1 with
      | EmptyString => s
      | String b2 t2 => if space3 b0 b1 b2 then trimLeft t2 else s
      end
    end
  end.

(** [TrimRightFunc(s, unicode.IsSpace)] on the reversed byte sequence:
    the last rune is decoded from the end, so its bytes are met in
    reverse. *)
Fixpoint trimLeftOfReversed (r : string) : string :=
  match r with
  | EmptyString => EmptyString
  | String b0 t0 =>
    if asciiSpace b0 then trimLeftOfReversed t0 else
    match t0 with
    | EmptyString => r
    | String b1 t1 =>
      if space2 b1 b0 then trimLeftOfReversed t1 else
      match t1 with
      | EmptyString => r
      | String b2 t2 =>
        if space3 b2 b1 b0 then trimLeftOfReversed t2 else r
      end
    end
  end.

Definition trimRight (s : string) : string :=
  reverse (trimLeftOfReversed (reverse s "")) "".

Definition TrimSpace (s : string) : string := trimRight (trimLeft s).

(** ** [strings.Join] *)
Definition Join (elems : list string) (sep : string) : string :=
  String.concat sep elems.

(** ** [strings.NewReplacer] with one-byte old strings

    All the old strings of [htmlEscaper] are one byte long, so the
    replacer works byte by byte; for a byte listed twice the first pair
    wins. *)
Definition Replacer : Type := list (ascii * string).

Fixpoint lookup (r : Replacer) (b : ascii) : option string :=
  match r with
  | [] => None
  | (old, new) :: r' => if Ascii.eqb old b then Some new else lookup r' b
  end.

Definition replaceByte (r : Replacer) (b : ascii) : string :=
  match lookup r b with
  | Some new => new
  | None => String b ""
  end.

Fixpoint Replace (r : Replacer) (s : string) : string :=
  match s with
  | EmptyString => EmptyString
  | String b t => replaceByte r b ++ Replace r t
  end.

(** ** [fmt.Sprintf], for the verbs the package uses

    The operands are given by their [%v] text.  [%v] prints the next
    operand, [%[n]v] (one digit) prints operand [n] and continues from
    operand [n+1], [%%] prints a percent sign.  A missing operand prints
    as [%!v(MISSING)] and a bad index as [%!v(BADINDEX)].  No other verb
    occurs in the package's own format strings, and each of its calls
    passes exactly the operands its format uses. *)
Definition operand (args : list string) (argNum : nat) : string :=
  nth argNum args "%!v(MISSING)".

Definition digit (c : ascii) : option nat :=
  let n := nat_of_ascii c in
  if Nat.leb 48 n && Nat.leb n 57 then Some (n - 48) else None.

Fixpoint doPrintf (format : string) (args : list string) (argNum : nat)
  : string :=
  match format with
  | EmptyString => EmptyString
  | String c rest =>
    if Ascii.eqb c "%" then
      match rest with
      | EmptyString => "%!(NOVERB)"
      | String v rest1 =>
        if Ascii.eqb v "v" then
          operand args argNum ++ doPrintf rest1 args (S argNum)
        else if Ascii.eqb v "%" then
          String "%" (doPrintf rest1 args argNum)
        else
          match rest1 with
          | String d (String close (String v' rest2)) =>
            if Ascii.eqb v "[" && Ascii.eqb close "]" && Ascii.eqb v' "v"
            then
              match digit d with
              | Some (S n) =>
                if Nat.ltb n (List.length args)
                then operand args n ++ doPrintf rest2 args (S n)
                else "%!v(BADINDEX)" ++ doPrintf rest2 args argNum
              | _ => "%!v(BADINDEX)" ++ doPrintf rest2 args argNum
              end
            else String c (doPrintf rest args argNum)
          | _ => String c (doPrintf rest args argNum)
          end
      end
    else String c (doPrintf rest args argNum)
  end.

Definition Sprintf (format : string) (args : list string) : string :=
  doPrintf format args 0.

(** [slices.Contains] on strings. *)
Definition Contains (l : list string) (v : string) : bool :=
  existsb (String.eqb v) l.

(** [strings.HasPrefix]. *)
Fixpoint HasPrefix (s prefix : string) {struct prefix} : bool :=
  match prefix, s with
  | EmptyString, _ => true
  | String a p', String b s' => Ascii.eqb a b && HasPrefix s' p'
  | String _ _, EmptyString => false
  end.

(** [s[len(s)-1]], when [s] is not empty. *)
Fixpoint lastByte (s : string) : option ascii :=
  match s with
  | EmptyString => None
  | String b EmptyString => Some b
  | String _ t => lastByte t
  end.

(** [strconv.FormatBool] and the decimal form of an integer. *)
Definition FormatBool (b : bool) : string := if b then "true" else "false".
Definition FormatInt (z : Z) : string := NilZero.string_of_int (Z.to_int z).

End Go.

Import Go.

(* ================================================================== *)
(** * Data model *)
(* ================================================================== *)

(** [type element struct]: the fields of the source, in its order.  The
    content items are of type [fmt.Stringer]. *)
Record elementOf (S : Type) : Type := mkElement {
  tag : string;
  hasClosingTag : bool;
  attributes : list string;
  classes : list string;
  styles : list string;
  content : list S
}.

Arguments mkElement {S}.
Arguments tag {S}.
Arguments hasClosingTag {S}.
Arguments attributes {S}.
Arguments classes {S}.
Arguments styles {S}.
Arguments content {S}.

(** The values of type [fmt.Stringer] that reach an element's content,
    by dynamic type.  Every concrete element type but [HtmlElement]
    embeds [*element] and has its [String] method; [HtmlElement] has its
    own.  [externalStringer] is a value of a type outside the package,
    given by what its [String] method returns. *)
Inductive Stringer : Type :=
| ofElement (p : elementOf Stringer)
| ofHtmlElement (p : elementOf Stringer)
| ofEscapeStringEntity (content : string)
| ofRawStringEntity (content : string)
| externalStringer (text : string).

Definition element : Type := elementOf Stringer.

(** A value of type [any], by the cases the package distinguishes; a
    value of any other type is given by its [%v] text (456.78 by
    ["456.78"]). *)
Inductive any : Type :=
| anyNil
| anyStringer (v : Stringer)
| anyString (v : string)
| anyBool (v : bool)
| anyInt (v : Z)
| anyOther (text : string).

(** Assignment to one field. *)
Definition withAttributes (p : element) (l : list string) : element :=
  mkElement (tag p) (hasClosingTag p) l (classes p) (styles p) (content p).
Definition withClasses (p : element) (l : list string) : element :=
  mkElement (tag p) (hasClosingTag p) (attributes p) l (styles p) (content p).
Definition withStyles (p : element) (l : list string) : element :=
  mkElement (tag p) (hasClosingTag p) (attributes p) (classes p) l (content p).
Definition withContent (p : element) (l : list Stringer) : element :=
  mkElement (tag p) (hasClosingTag p) (attributes p) (classes p) (styles p) l.

(* ================================================================== *)
(** * strings.go *)
(* ================================================================== *)

Definition htmlEscaper : Replacer :=
  [ ("&"%char, "&amp;");
    ("<"%char, "&lt;");
    (">"%char, "&gt;");
    (dquote, "&#34;");
    ("'"%char, "&#39;") ].

Definition escapeStringEntity_String (content : string) : string :=
  Replace htmlEscaper content.

Definition rawStringEntity_String (content : string) : string := content.

(* ================================================================== *)
(** * Serialisation *)
(* ================================================================== *)

Definition preamble : string := "<!DOCTYPE html>".

(** The three getters read string fields only, whatever the content
    items are. *)
Definition getAttributes {S : Type} (p : elementOf S) : string :=
  if Nat.eqb (List.length (attributes p)) 0 then ""
  else Sprintf " %v" [Join (attributes p) " "].

Definition getClasses {S : Type} (p : elementOf S) : string :=
  if Nat.eqb (List.length (classes p)) 0 then ""
  else Sprintf (" class=" ++ dq ++ "%v" ++ dq) [Join (classes p) " "].

Definition getStyles {S : Type} (p : elementOf S) : string :=
  if Nat.eqb (List.length (styles p)) 0 then ""
  else Sprintf (" style=" ++ dq ++ "%v" ++ dq) [Join (styles p) " "].

Section Serialisation.

(** [el.String()] for a content item [el]. *)
Variable String_ : Stringer -> string.

(** The [strings.Builder] loop. *)
Definition getContent (p : element) : string :=
  fold_left (fun s el => s ++ String_ el) (content p) "".

Definition element_String (p : element) : string :=
  if (tag p =? "")%string then
    Sprintf "%v" [getContent p]
  else if hasClosingTag p then
    Sprintf "<%[1]v%v%v%v>%v</%[1]v>"
      [tag p; getAttributes p; getClasses p; getStyles p; getContent p]
  else
    Sprintf "<%[1]v%v%v%v/>"
      [tag p; getAttributes p; getClasses p; getStyles p].

Definition HtmlElement_String (p : element) : string :=
  Sprintf "<!DOCTYPE html><%[1]v%v%v%v>%v</%[1]v>"
    [tag p; getAttributes p; getClasses p; getStyles p; getContent p].

End Serialisation.

(** Dynamic dispatch of [String()]. *)
Fixpoint Stringer_String (s : Stringer) : string :=
  match s with
  | ofElement p => element_String Stringer_String p
  | ofHtmlElement p => HtmlElement_String Stringer_String p
  | ofEscapeStringEntity c => escapeStringEntity_String c
  | ofRawStringEntity c => rawStringEntity_String c
  | externalStringer text => text
  end.

(** The [%v] text of a value: a [Stringer] prints through its [String]
    method, the nil interface as [<nil>]. *)
Definition formatV (v : any) : string :=
  match v with
  | anyNil => "<nil>"
  | anyStringer s => Stringer_String s
  | anyString s => s
  | anyBool b => FormatBool b
  | anyInt z => FormatInt z
  | anyOther text => text
  end.

Definition rawString (format : string) (args : list any) : Stringer :=
  ofRawStringEntity (Sprintf format (map formatV args)).

(* ================================================================== *)
(** * Accumulation *)
(* ================================================================== *)

(** [value] is the variadic parameter: [[]] is the call without a value
    ([value == nil]); only [value[0]] is read.  The methods update the
    receiver in place, so each returns the receiver's new state. *)
Definition addAttribute (p : element) (attr : string) (value : list any)
  : element :=
  let attr := TrimSpace attr in
  if (attr =? "")%string then p
  else
    let attr :=
      match value with
      | [] => attr
      | v :: _ => Sprintf ("%v=" ++ dq ++ "%v" ++ dq) [attr; formatV v]
      end in
    withAttributes p (attributes p ++ [attr]).

Definition addClasses (p : element) (class : list string) : element :=
  fold_left
    (fun p c =>
       let c := TrimSpace c in
       if negb (c =? "")%string then withClasses p (classes p ++ [c]) else p)
    class p.

Definition lastIsNot (b : ascii) (s : string) : bool :=
  match lastByte s with
  | Some b' => negb (Ascii.eqb b' b)
  | None => false
  end.

Definition addStyles (p : element) (style : list string) : element :=
  fold_left
    (fun p s =>
       let s := TrimSpace s in
       let s := if negb (s =? "")%string && lastIsNot ";" s
                then s ++ ";" else s in
       withStyles p (styles p ++ [s]))
    style p.

Definition addContent (p : element) (items : list any) : element :=
  fold_left
    (fun p value =>
       match value with
       | anyStringer v => withContent p (content p ++ [v])
       | anyString v => withContent p (content p ++ [ofRawStringEntity v])
       | anyNil => p
       | v => withContent p (content p ++ [rawString "%v" [v]])
       end)
    items p.

Definition newElement (tag : string) (hasClosingTag : bool)
  (items : list any) : element :=
  addContent (mkElement tag hasClosingTag [] [] [] []) items.

(* ================================================================== *)
(** * Constructors and attribute setters *)
(* ================================================================== *)

(** A concrete element type is its [*element] together with setters that
    all write to that element and return the enclosing value; a setter
    is given here by what it does to the element. *)

Definition Container (items : list any) : element := newElement "" false items.
Definition Html (items : list any) : element := newElement "html" true items.
Definition Div (items : list any) : element := newElement "div" true items.
Definition B (items : list any) : element := newElement "b" true items.
Definition Br : element := newElement "br" false [].

Definition AddContent (p : element) (items : list any) : element :=
  addContent p items.

Definition Class (p : element) (text : list string) : element :=
  addClasses p text.

Definition Style (p : element) (text : list string) : element :=
  addStyles p text.

Definition Id (p : element) (value : string) : element :=
  addAttribute p "id" [anyString value].

Definition Dir (p : element) (value : string) : element :=
  addAttribute p "dir" [anyString value].

Definition Translate (p : element) (value : string) : element :=
  addAttribute p "translate" [anyString value].

Definition AutoCapitalize (p : element) (value : string) : element :=
  addAttribute p "autocapitalize" [anyString value].

(** The variadic parameter of an exported setter, as the setter
    receives it: [None] is the nil slice of a call without arguments,
    [Some l] a slice that is not nil.  [Some []] is what a caller passes
    who spreads an empty slice ([f(s...)]): the setters test
    [value == nil] and then read [value[0]], which is out of range on
    it.  A setter's result [None] is that run-time panic. *)
Definition variadic (A : Type) : Type := option (list A).

Section Lowering.

(** [strings.ToLower]: its Unicode case tables are not modelled; what
    is proved of [ContentEditable] holds whatever it returns. *)
Variable ToLower : string -> string.

Definition ContentEditable (p : element) (value : variadic string)
  : option element :=
  match value with
  | None => Some (addAttribute p "contenteditable" [])
  | Some [] => None
  | Some (v0 :: _) =>
    let v := TrimSpace (ToLower v0) in
    if negb (Contains ["true"; "false"; "plaintext-only"] v)
    then Some (addAttribute p "contenteditable" [])
    else Some (addAttribute p "contenteditable" [anyString v])
  end.

End Lowering.

(** [strings.ToLower] on the ASCII letters, which is what the Go function
    does to a string of ASCII bytes. *)
Definition lowerByte (b : ascii) : ascii :=
  let n := nat_of_ascii b in
  if Nat.leb 65 n && Nat.leb n 90 then ascii_of_nat (n + 32) else b.

Fixpoint ToLowerASCII (s : string) : string :=
  match s with
  | EmptyString => EmptyString
  | String b t => String (lowerByte b) (ToLowerASCII t)
  end.

(** A sequence of setter calls on one element. *)
Inductive call : Type :=
| callAttribute (attr : string) (value : list any)
| callClasses (class : list string)
| callStyles (style : list string).

Definition applyCall (p : element) (c : call) : element :=
  match c with
  | callAttribute attr value => addAttribute p attr value
  | callClasses class => addClasses p class
  | callStyles style => addStyles p style
  end.

Definition applyCalls (p : element) (cs : list call) : element :=
  fold_left applyCall cs p.

(* ================================================================== *)
(** * The vocabulary of the statements *)
(* ================================================================== *)

(** ** Unescaping *)

(** Modelled from the spec: the character a reference at the front of
    [s] stands for, and the number of bytes after its ampersand.  The
    references are the five that [htmlEscaper] writes. *)
Definition reference (s : string) : option (ascii * nat) :=
  if HasPrefix s "&amp;" then Some ("&"%char, 4)
  else if HasPrefix s "&lt;" then Some ("<"%char, 3)
  else if HasPrefix s "&gt;" then Some (">"%char, 3)
  else if HasPrefix s "&#34;" then Some (dquote, 4)
  else if HasPrefix s "&#39;" then Some ("'"%char, 4)
  else None.

(** Modelled from the spec: the scan of the unescaping function;
    [skip] counts the bytes of a reference still to pass over. *)
Fixpoint unescapeFrom (skip : nat) (s : string) : string :=
  match s with
  | EmptyString => EmptyString
  | String b t =>
    match skip with
    | S k => unescapeFrom k t
    | O =>
      match reference s with
      | Some (c, n) => String c (unescapeFrom n t)
      | None => String b (unescapeFrom 0 t)
      end
    end
  end.

(** Modelled from the spec: the unescaping function, which is not part
    of the package (the spec: not implemented in-core, assumed as a
    property; the source names it in the comment of [EscapeString]
    only).  It is the inverse substitution: each of the five references
    that [htmlEscaper] writes is read back as its character, and every
    other byte is kept. *)
Definition UnescapeString (s : string) : string := unescapeFrom 0 s.

(** ** Character references and reserved characters *)

(** A named character reference, as the specification's wording has it:
    an ampersand, a name of ASCII letters and digits, a semicolon.  A
    numeric reference has [#] after the ampersand and is not one. *)
Definition isAlnum (b : ascii) : bool :=
  let n := nat_of_ascii b in
  (Nat.leb 48 n && Nat.leb n 57) || (Nat.leb 65 n && Nat.leb n 90)
  || (Nat.leb 97 n && Nat.leb n 122).

Fixpoint isNameThenSemicolon (s : string) : bool :=
  match s with
  | EmptyString => false
  | String b EmptyString => false
  | String b (String c EmptyString) => isAlnum b && Ascii.eqb c ";"
  | String b t => isAlnum b && isNameThenSemicolon t
  end.

Definition isNamedReference (s : string) : bool :=
  match s with
  | String a t => Ascii.eqb a "&" && isNameThenSemicolon t
  | EmptyString => false
  end.

(** The five reserved characters. *)
Definition reserved (b : ascii) : bool :=
  Ascii.eqb "&" b || Ascii.eqb "<" b || Ascii.eqb ">" b
  || Ascii.eqb dquote b || Ascii.eqb "'" b.

Fixpoint noneReserved (s : string) : bool :=
  match s with
  | EmptyString => true
  | String b t => negb (reserved b) && noneReserved t
  end.

(** ** Occurrences *)

(** [x] occurs in [s]. *)
Definition Substring (x s : string) : Prop :=
  exists pre post, s = pre ++ x ++ post.

(** The number of positions of [s] at which [x] starts. *)
Fixpoint occurrences (x s : string) : nat :=
  match s with
  | EmptyString => if HasPrefix "" x then 1 else 0
  | String _ t => (if HasPrefix s x then 1 else 0) + occurrences x t
  end.

(** ** What a call leaves in the three sequences *)

(** The entry an attribute call appends, if any. *)
Definition attributeEntries (attr : string) (value : list any) : list string :=
  if (TrimSpace attr =? "")%string then []
  else
    match value with
    | [] => [TrimSpace attr]
    | v :: _ => [TrimSpace attr ++ "=" ++ dq ++ formatV v ++ dq]
    end.

(** The class tokens that are kept: trimmed, the empty ones left out. *)
Definition classTokens (class : list string) : list string :=
  filter (fun c => negb (c =? "")%string) (map TrimSpace class).

(** A style declaration as it is stored. *)
Definition styleEntry (s : string) : string :=
  let t := TrimSpace s in
  if negb (t =? "")%string && lastIsNot ";" t then t ++ ";" else t.

Definition callAttributes (c : call) : list string :=
  match c with
  | callAttribute attr value => attributeEntries attr value
  | _ => []
  end.

Definition callClassTokens (c : call) : list string :=
  match c with
  | callClasses class => classTokens class
  | _ => []
  end.

Definition callStyleEntries (c : call) : list string :=
  match c with
  | callStyles style => map styleEntry style
  | _ => []
  end.

(** The three parts of an opening tag after the tag name. *)
Definition attributeSuffix (l : list string) : string :=
  match l with
  | [] => ""
  | _ => " " ++ Join l " "
  end.

Definition classSuffix (l : list string) : string :=
  match l with
  | [] => ""
  | _ => " class=" ++ dq ++ Join l " " ++ dq
  end.

Definition styleSuffix (l : list string) : string :=
  match l with
  | [] => ""
  | _ => " style=" ++ dq ++ Join l " " ++ dq
  end.

(** The last byte of [s] is [b]. *)
Definition endsWith (b : ascii) (s : string) : bool :=
  match lastByte s with
  | Some b' => Ascii.eqb b' b
  | None => false
  end.

(** All the strings of a list, one after the other. *)
Definition joined (l : list string) : string := fold_right append "" l.

(** What one content argument adds to the children, and its text. *)
Definition contentItems (value : any) : list Stringer :=
  match value with
  | anyNil => []
  | anyStringer v => [v]
  | v => [ofRawStringEntity (formatV v)]
  end.

Definition contentText (value : any) : string :=
  match value with
  | anyNil => ""
  | v => formatV v
  end.

(* ================================================================== *)
(** * The same code over a store of elements *)
(* ================================================================== *)

(** Elements are reached through pointers in the source: a content item
    that is an element is a pointer to it, and the [add*] methods write
    through the receiver.  Here the store is explicit, an element's
    address is its index, and every method is a computation that takes
    the store and returns it. *)
Module Heap.

Definition ptr : Type := nat.

(** The content items: an element is a pointer into the store.  The
    text entities are never written to after they are made and are
    held by value; the [String] method of a type outside the package is
    taken to return its text without writing to the store. *)
Inductive Stringer : Type :=
| ofElement (p : ptr)
| ofHtmlElement (p : ptr)
| ofEscapeStringEntity (content : string)
| ofRawStringEntity (content : string)
| externalStringer (text : string).

Definition element : Type := elementOf Stringer.
Definition heap : Type := list element.

(** A computation fails on a nil or dangling pointer, and when the
    recursion budget of [Stringer_String] is used up. *)
Definition M (A : Type) : Type := heap -> option A * heap.

Definition ret {A : Type} (a : A) : M A := fun h => (Some a, h).

Definition fail {A : Type} : M A := fun h => (None, h).

Definition bind {A B : Type} (m : M A) (k : A -> M B) : M B :=
  fun h =>
    match m h with
    | (Some a, h') => k a h'
    | (None, h') => (None, h')
    end.

Notation "x <- m ;; k" := (bind m (fun x => k))
  (at level 61, m at next level, right associativity).

Definition load (p : ptr) : M element := fun h => (nth_error h p, h).

Fixpoint update (h : heap) (p : ptr) (e : element) : heap :=
  match h, p with
  | [], _ => []
  | _ :: t, O => e :: t
  | x :: t, S p' => x :: update t p' e
  end.

Definition store (p : ptr) (e : element) : M unit :=
  fun h =>
    if Nat.ltb p (List.length h) then (Some tt, update h p e)
    else (None, h).

(** A writing method, for contrast with the reading ones. *)
Fixpoint addClasses (p : ptr) (class : list string) : M unit :=
  match class with
  | [] => ret tt
  | c :: rest =>
    let c := TrimSpace c in
    if negb (c =? "")%string then
      e <- load p ;;
      _ <- store p (mkElement (tag e) (hasClosingTag e) (attributes e)
                      (classes e ++ [c]) (styles e) (content e)) ;;
      addClasses p rest
    else addClasses p rest
  end.

Section Serialisation.

Variable String_ : Stringer -> M string.

Definition getAttributes (p : ptr) : M string :=
  e <- load p ;; ret (getAttributes e).

Definition getClasses (p : ptr) : M string :=
  e <- load p ;; ret (getClasses e).

Definition getStyles (p : ptr) : M string :=
  e <- load p ;; ret (getStyles e).

Fixpoint writeStrings (s : string) (l : list Stringer) : M string :=
  match l with
  | [] => ret s
  | el :: l' => x <- String_ el ;; writeStrings (s ++ x) l'
  end.

Definition getContent (p : ptr) : M string :=
  e <- load p ;; writeStrings "" (content e).

Definition element_String (p : ptr) : M string :=
  e <- load p ;;
  if (tag e =? "")%string then
    c <- getContent p ;; ret (Sprintf "%v" [c])
  else if hasClosingTag e then
    a <- getAttributes p ;;
    c <- getClasses p ;;
    s <- getStyles p ;;
    x <- getContent p ;;
    ret (Sprintf "<%[1]v%v%v%v>%v</%[1]v>" [tag e; a; c; s; x])
  else
    a <- getAttributes p ;;
    c <- getClasses p ;;
    s <- getStyles p ;;
    ret (Sprintf "<%[1]v%v%v%v/>" [tag e; a; c; s]).

Definition HtmlElement_String (p : ptr) : M string :=
  e <- load p ;;
  a <- getAttributes p ;;
  c <- getClasses p ;;
  s <- getStyles p ;;
  x <- getContent p ;;
  ret (Sprintf "<!DOCTYPE html><%[1]v%v%v%v>%v</%[1]v>" [tag e; a; c; s; x]).

End Serialisation.

(** [fuel] bounds the depth of the calls: the Go recursion does not
    return on a cyclic store. *)
Fixpoint Stringer_String (fuel : nat) (s : Stringer) : M string :=
  match fuel with
  | O => fail
  | S fuel' =>
    match s with
    | ofElement p => element_String (Stringer_String fuel') p
    | ofHtmlElement p => HtmlElement_String (Stringer_String fuel') p
    | ofEscapeStringEntity c => ret (escapeStringEntity_String c)
    | ofRawStringEntity c => ret (rawStringEntity_String c)
    | externalStringer text => ret text
    end
  end.

(** Two calls of [String] in a row, with both results. *)
Definition twice (fuel : nat) (s : Stringer) : M (string * string) :=
  x <- Stringer_String fuel s ;;
  y <- Stringer_String fuel s ;;
  ret (x, y).

(** A computation that leaves the store as it found it. *)
Definition readOnly {A : Type} (m : M A) : Prop :=
  forall h, snd (m h) = h.

(** A store of two elements: a [div] at address 0 whose children are
    the text [hi], the element at address 1 and an escaped [<], and a
    [b] at address 1. *)
Definition twoElements : heap :=
  [ mkElement "div" true ["hidden"] ["a"] []
      [ofRawStringEntity "hi"; ofElement 1; ofEscapeStringEntity "<"];
    mkElement "b" true [] [] [] [] ].

End Heap.

(** ** The tree a store holds

    The element tree reached from a content item, read out of the store
    down to [depth] levels of elements: [None] when a pointer is not
    allocated or an element lies deeper, as on a store with a cycle. *)
Section Reify.

Variable reifyItem : Heap.Stringer -> option Stringer.

Fixpoint reifyAll (l : list Heap.Stringer) : option (list Stringer) :=
  match l with
  | [] => Some []
  | el :: l' =>
    match reifyItem el, reifyAll l' with
    | Some t, Some ts => Some (t :: ts)
    | _, _ => None
    end
  end.

Definition reifyElement (h : Heap.heap) (p : Heap.ptr) : option element :=
  match nth_error h p with
  | Some e =>
    match reifyAll (content e) with
    | Some ts =>
      Some (mkElement (tag e) (hasClosingTag e) (attributes e) (classes e)
              (styles e) ts)
    | None => None
    end
  | None => None
  end.

End Reify.

Fixpoint reify (depth : nat) (h : Heap.heap) (s : Heap.Stringer)
  : option Stringer :=
  match s with
  | Heap.ofEscapeStringEntity c => Some (ofEscapeStringEntity c)
  | Heap.ofRawStringEntity c => Some (ofRawStringEntity c)
  | Heap.externalStringer text => Some (externalStringer text)
  | Heap.ofElement p =>
    match depth with
    | O => None
    | S d => option_map ofElement (reifyElement (reify d h) h p)
    end
  | Heap.ofHtmlElement p =>
    match depth with
    | O => None
    | S d => option_map ofHtmlElement (reifyElement (reify d h) h p)
    end
  end.

(* ================================================================== *)
(** * More setters and constructors *)
(* ================================================================== *)

(** [Component] is [Container] under another name. *)
Definition Component (items : list any) : element := newElement "" false items.

(** ** Attributes from other packages *)

(** An argument of [AddAttributes], by the case of the type switch that
    takes it.  The cases are tried in the order of the source, so a
    value that has both a [GetAttributes] and a [String] method is taken
    by the first; [String_] is what that unused method would return.
    Any other value, the nil interface among them, is skipped. *)
Inductive external : Type :=
| externalAttributes (GetAttributes : list string) (String_ : option string)
| externalStringerValue (v : Stringer)
| externalString (v : string)
| externalOther.

Definition AddAttributes (p : element) (attrs : list external) : element :=
  fold_left
    (fun p value =>
       match value with
       | externalAttributes l _ =>
         fold_left (fun p s => addAttribute p s []) l p
       | externalStringerValue v => addAttribute p (Stringer_String v) []
       | externalString v => addAttribute p v []
       | externalOther => p
       end)
    attrs p.

(** The strings an argument of [AddAttributes] stands for. *)
Definition externalStrings (value : external) : list string :=
  match value with
  | externalAttributes l _ => l
  | externalStringerValue v => [Stringer_String v]
  | externalString v => [v]
  | externalOther => []
  end.

(** ** Attributes with a prefixed name *)

Definition Aria (p : element) (name value : string) : element :=
  addAttribute p ("aria-" ++ name) [anyString value].

Definition Data (p : element) (name value : string) : element :=
  addAttribute p ("data-" ++ name) [anyString value].

(** ** Boolean and integer attributes *)

Definition AutoFocus (p : element) (value : variadic bool) : option element :=
  match value with
  | None => Some (addAttribute p "autofocus" [])
  | Some [] => None
  | Some (b :: _) => Some (addAttribute p "autofocus" [anyString (FormatBool b)])
  end.

Definition Inert (p : element) (value : variadic bool) : option element :=
  match value with
  | None => Some (addAttribute p "inert" [])
  | Some [] => None
  | Some (b :: _) => Some (addAttribute p "inert" [anyString (FormatBool b)])
  end.

Definition SpellCheck (p : element) (value : variadic bool) : option element :=
  match value with
  | None => Some (addAttribute p "spellcheck" [])
  | Some [] => None
  | Some (b :: _) => Some (addAttribute p "spellcheck" [anyString (FormatBool b)])
  end.

Definition Draggable (p : element) (value : bool) : element :=
  addAttribute p "draggable" [anyBool value].

Definition TabIndex (p : element) (value : Z) : element :=
  addAttribute p "tabindex" [anyInt value].

Definition Hidden (p : element) : element := addAttribute p "hidden" [].

(** ** Events *)

(** [s[:n]]: [None] is the run-time panic for [n] beyond the length. *)
Fixpoint sliceTo (s : string) (n : nat) {struct n} : option string :=
  match n with
  | O => Some ""
  | S n' =>
    match s with
    | EmptyString => None
    | String b t => option_map (String b) (sliceTo t n')
    end
  end.

Section Events.

(** [strings.ToLower], as for [ContentEditable]. *)
Variable ToLower : string -> string.

(** [None] is the panic of [eventName[:2]]. *)
Definition On (p : element) (eventName script : string) : option element :=
  let eventName := ToLower eventName in
  match sliceTo eventName 2 with
  | None => None
  | Some head =>
    if (head =? "on")%string
    then Some (addAttribute p eventName [anyString script])
    else Some (addAttribute p ("on" ++ eventName) [anyString script])
  end.

End Events.

(** ** Text entities made from a format *)

(** [EscapeString(format)] and [RawString(format)], called with a
    format and no further argument.  The format goes through
    [fmt.Sprintf], which [Sprintf] follows on a format whose percent
    signs are those of [%v], [%[n]v] and [%%] or stand at its end; a
    format with another verb is outside what is modelled, and nothing
    is stated of it. *)
Definition EscapeString (format : string) : Stringer :=
  ofEscapeStringEntity (Sprintf format []).

Definition RawString (format : string) : Stringer := rawString format [].

(** ** Vocabulary *)

(** A byte below [0x80] that is not white space. *)
Definition wordByte (b : ascii) : bool :=
  Nat.ltb (nat_of_ascii b) 128 && negb (asciiSpace b).

(** A string of such bytes only: every attribute name written out in
    the package is one. *)
Fixpoint asciiWord (s : string) : bool :=
  match s with
  | EmptyString => true
  | String b t => wordByte b && asciiWord t
  end.

(** The byte [b] occurs in [s]. *)
Fixpoint hasByte (b : ascii) (s : string) : bool :=
  match s with
  | EmptyString => false
  | String c t => Ascii.eqb b c || hasByte b t
  end.

(** ** The example of the README *)

Definition Head (items : list any) : element := newElement "head" true items.
Definition Title (items : list any) : element := newElement "title" true items.
Definition Script (items : list any) : element := newElement "script" true items.
Definition Body (items : list any) : element := newElement "body" true items.
Definition H1 (items : list any) : element := newElement "h1" true items.
Definition P (items : list any) : element := newElement "p" true items.
Definition Link : element := newElement "link" false [].
Definition Meta : element := newElement "meta" false [].

Definition Lang (p : element) (value : string) : element :=
  addAttribute p "lang" [anyString value].
Definition Rel (p : element) (value : string) : element :=
  addAttribute p "rel" [anyString value].
Definition Href (p : element) (value : string) : element :=
  addAttribute p "href" [anyString value].
Definition CharSet (p : element) (value : string) : element :=
  addAttribute p "charset" [anyString value].
Definition Name (p : element) (value : string) : element :=
  addAttribute p "name" [anyString value].
Definition Content (p : element) (value : string) : element :=
  addAttribute p "content" [anyString value].
Definition HttpEquiv (p : element) (value : string) : element :=
  addAttribute p "http-equiv" [anyString value].
Definition Src (p : element) (value : string) : element :=
  addAttribute p "src" [anyString value].
Definition Defer (p : element) : element := addAttribute p "defer" [].

(** The function [two] of the test file, which is the example of the
    README. *)
Definition two : Stringer :=
  let el (p : element) : any := anyStringer (ofElement p) in
  ofHtmlElement
    (AddContent (Lang (Html []) "en")
       [ el (Head
               [ el (Title [anyString "Testing app"]);
                 el (Href (Rel Link "shortcut icon") "media/imgs/favicon.ico");
                 el (CharSet Meta "UTF-8");
                 el (Content (Name Meta "viewport")
                       "width=device-width, initial-scale=1.0");
                 el (Content (HttpEquiv Meta "X-UA-Compatible") "IE=edge");
                 el (Content (HttpEquiv Meta "pragma") "no-cache");
                 el (Content (HttpEquiv Meta "expires") "-1");
                 el (Href (Rel Link "stylesheet") "css/styles.css");
                 el (Src (Defer (Script [])) "js/htmx.min.js") ]);
         el (Body
               [ el (H1 [anyString "Page title"]);
                 el (P [anyString "Hello world!"]) ]) ]).

(** The text the README gives as the output of that code. *)
Definition readmeOutput : string :=
  "<!DOCTYPE html><html lang=" ++ dq ++
    "en" ++ dq ++
    "><head><title>Testing app</title><link rel=" ++ dq ++
    "shortcut icon" ++ dq ++
    " href=" ++ dq ++
    "media/imgs/favicon.ico" ++ dq ++
    "/><meta charset=" ++ dq ++
    "UTF-8" ++ dq ++
    "/><meta name=" ++ dq ++
    "viewport" ++ dq ++
    " content=" ++ dq ++
    "width=device-width, initial-scale=1.0" ++ dq ++
    "/><meta http-equiv=" ++ dq ++
    "X-UA-Compatible" ++ dq ++
    " content=" ++ dq ++
    "IE=edge" ++ dq ++
    "/><meta http-equiv=" ++ dq ++
    "pragma" ++ dq ++
    " content=" ++ dq ++
    "no-cache" ++ dq ++
    "/><meta http-equiv=" ++ dq ++
    "expires" ++ dq ++
    " content=" ++ dq ++
    "-1" ++ dq ++
    "/><link rel=" ++ dq ++
    "stylesheet" ++ dq ++
    " href=" ++ dq ++
    "css/styles.css" ++ dq ++
    "/><script defer src=" ++ dq ++
    "js/htmx.min.js" ++ dq ++
    "></script></head><body><h1>Page title</h1><p>Hello world!</p></body></html>".

(** The element at [p] renders its children and is one of them. *)
Definition ownChild (h : Heap.heap) (p : Heap.ptr) : Prop :=
  exists e, nth_error h p = Some e
            /\ (tag e = "" \/ hasClosingTag e = true)
            /\ In (Heap.ofElement p) (content e).

(** The strings that are kept of a list: trimmed, the blank ones left
    out. *)
Definition keptStrings (l : list string) : list string :=
  filter (fun c => negb (c =? "")%string) (map TrimSpace l).

(* ================================================================== *)
(** * Properties *)
(* ================================================================== *)

(** ** Strings and formats *)

Lemma append_empty_r (s : string) : s ++ "" = s.
Proof. induction s as [| b t IH]; simpl; [reflexivity | now rewrite IH]. Qed.

Lemma append_assoc (a b c : string) : (a ++ b) ++ c = a ++ b ++ c.
Proof. induction a as [| x a IH]; simpl; [reflexivity | now rewrite IH]. Qed.

Lemma Sprintf_v (x : string) : Sprintf "%v" [x] = x.
Proof. unfold Sprintf; simpl. apply append_empty_r. Qed.

Lemma Sprintf_space_v (x : string) : Sprintf " %v" [x] = " " ++ x.
Proof. unfold Sprintf; simpl. now rewrite append_empty_r. Qed.

Lemma Sprintf_quoted (name x : string) :
  Sprintf ("%v=" ++ dq ++ "%v" ++ dq) [name; x] = name ++ "=" ++ dq ++ x ++ dq.
Proof. reflexivity. Qed.

Lemma Sprintf_class (x : string) :
  Sprintf (" class=" ++ dq ++ "%v" ++ dq) [x] = " class=" ++ dq ++ x ++ dq.
Proof. reflexivity. Qed.

Lemma Sprintf_style (x : string) :
  Sprintf (" style=" ++ dq ++ "%v" ++ dq) [x] = " style=" ++ dq ++ x ++ dq.
Proof. reflexivity. Qed.

Lemma Sprintf_closed (t a c s x : string) :
  Sprintf "<%[1]v%v%v%v>%v</%[1]v>" [t; a; c; s; x]
  = "<" ++ t ++ a ++ c ++ s ++ ">" ++ x ++ "</" ++ t ++ ">".
Proof. reflexivity. Qed.

Lemma Sprintf_void (t a c s : string) :
  Sprintf "<%[1]v%v%v%v/>" [t; a; c; s] = "<" ++ t ++ a ++ c ++ s ++ "/>".
Proof. reflexivity. Qed.

Lemma Sprintf_root (t a c s x : string) :
  Sprintf "<!DOCTYPE html><%[1]v%v%v%v>%v</%[1]v>" [t; a; c; s; x]
  = preamble ++ "<" ++ t ++ a ++ c ++ s ++ ">" ++ x ++ "</" ++ t ++ ">".
Proof. reflexivity. Qed.

Lemma getAttributes_suffix {S : Type} (p : elementOf S) :
  getAttributes p = attributeSuffix (attributes p).
Proof.
  unfold getAttributes, attributeSuffix.
  destruct (attributes p); simpl; [reflexivity | apply Sprintf_space_v].
Qed.

Lemma getClasses_suffix {S : Type} (p : elementOf S) :
  getClasses p = classSuffix (classes p).
Proof.
  unfold getClasses, classSuffix.
  destruct (classes p); simpl Nat.eqb; cbv iota; [reflexivity | apply Sprintf_class].
Qed.

Lemma getStyles_suffix {S : Type} (p : elementOf S) :
  getStyles p = styleSuffix (styles p).
Proof.
  unfold getStyles, styleSuffix.
  destruct (styles p); simpl Nat.eqb; cbv iota; [reflexivity | apply Sprintf_style].
Qed.

(** ** What the accumulating methods leave in the element *)

Lemma withAttributes_same (p : element) : withAttributes p (attributes p) = p.
Proof. now destruct p. Qed.

Lemma withClasses_same (p : element) : withClasses p (classes p) = p.
Proof. now destruct p. Qed.

Lemma withStyles_same (p : element) : withStyles p (styles p) = p.
Proof. now destruct p. Qed.

Lemma withContent_same (p : element) : withContent p (content p) = p.
Proof. now destruct p. Qed.

Lemma addAttribute_entries (p : element) (attr : string) (value : list any) :
  addAttribute p attr value
  = withAttributes p (attributes p ++ attributeEntries attr value).
Proof.
  unfold addAttribute, attributeEntries.
  destruct (TrimSpace attr =? "")%string.
  - now rewrite app_nil_r, withAttributes_same.
  - destruct value as [| v rest]; [reflexivity |].
    now rewrite Sprintf_quoted.
Qed.

Lemma addClasses_tokens (class : list string) :
  forall p : element,
    addClasses p class = withClasses p (classes p ++ classTokens class).
Proof.
  unfold addClasses, classTokens.
  induction class as [| c rest IH]; intro p; cbn [fold_left map filter].
  - now rewrite app_nil_r, withClasses_same.
  - destruct (TrimSpace c =? "")%string; cbn [negb]; rewrite IH.
    + reflexivity.
    + destruct p; unfold withClasses; cbn.
      now rewrite <- app_assoc.
Qed.

Lemma addStyles_entries (style : list string) :
  forall p : element,
    addStyles p style = withStyles p (styles p ++ map styleEntry style).
Proof.
  unfold addStyles.
  induction style as [| s rest IH]; intro p; cbn [fold_left map].
  - now rewrite app_nil_r, withStyles_same.
  - rewrite IH. fold (styleEntry s).
    destruct p; unfold withStyles; cbn.
    now rewrite <- app_assoc.
Qed.

Lemma addContent_items (items : list any) :
  forall p : element,
    addContent p items
    = withContent p (content p ++ flat_map contentItems items).
Proof.
  unfold addContent.
  induction items as [| v rest IH]; intro p; cbn [fold_left flat_map].
  - now rewrite app_nil_r, withContent_same.
  - rewrite IH.
    destruct v; cbn [contentItems app formatV];
      try (unfold rawString; cbn [map formatV]; rewrite Sprintf_v);
      destruct p; unfold withContent; cbn;
      now rewrite <- ?app_assoc.
Qed.

Lemma applyCalls_fields (cs : list call) :
  forall p : element,
    applyCalls p cs
    = mkElement (tag p) (hasClosingTag p)
        (attributes p ++ flat_map callAttributes cs)
        (classes p ++ flat_map callClassTokens cs)
        (styles p ++ flat_map callStyleEntries cs)
        (content p).
Proof.
  unfold applyCalls.
  induction cs as [| c rest IH]; intro p; cbn [fold_left flat_map].
  - rewrite !app_nil_r. now destruct p.
  - rewrite IH. destruct c as [attr value | class | style]; cbn [applyCall].
    + rewrite addAttribute_entries. destruct p; cbn.
      now rewrite <- app_assoc.
    + rewrite addClasses_tokens. destruct p; cbn.
      now rewrite <- app_assoc.
    + rewrite addStyles_entries. destruct p; cbn.
      now rewrite <- app_assoc.
Qed.

(** ** Trimming *)

Lemma trimLeft_spaces (s : string) :
  forallb asciiSpace (list_ascii_of_string s) = true -> trimLeft s = "".
Proof.
  induction s as [| b t IH]; cbn [list_ascii_of_string forallb trimLeft];
    [reflexivity |].
  intro H. apply andb_true_iff in H as [Hb Ht].
  rewrite Hb. now apply IH.
Qed.

(** A string of ASCII white space only is trimmed to the empty string. *)
Lemma TrimSpace_spaces (s : string) :
  forallb asciiSpace (list_ascii_of_string s) = true -> TrimSpace s = "".
Proof.
  intro H. unfold TrimSpace. now rewrite (trimLeft_spaces s H).
Qed.

Lemma lastByte_snoc (s : string) (b : ascii) :
  lastByte (s ++ String b "") = Some b.
Proof.
  induction s as [| a t IH]; [reflexivity |].
  cbn [append lastByte]. rewrite IH.
  now destruct t.
Qed.

(** A declaration that is not blank is stored with a final semicolon. *)
Lemma styleEntry_semicolon (d : string) :
  TrimSpace d <> "" -> endsWith ";" (styleEntry d) = true.
Proof.
  intro H. unfold styleEntry, endsWith, lastIsNot.
  apply String.eqb_neq in H. rewrite H. cbn [negb andb].
  destruct (lastByte (TrimSpace d)) as [b |] eqn:E.
  - destruct (Ascii.eqb b ";") eqn:Eb; cbn [negb].
    + now rewrite E, Eb.
    + rewrite lastByte_snoc. apply Ascii.eqb_refl.
  - destruct (TrimSpace d) as [| a t]; [discriminate H |].
    exfalso. clear H. revert a E.
    induction t as [| a' t IH]; intros a E; [discriminate E |].
    now apply (IH a').
Qed.

(** ** Attribute names and class tokens that are blank *)

Lemma addAttribute_blank (p : element) (attr : string) (value : list any) :
  TrimSpace attr = "" -> addAttribute p attr value = p.
Proof.
  intro H. unfold addAttribute. now rewrite H.
Qed.

Lemma classTokens_blank (class : list string) :
  Forall (fun c => TrimSpace c = "") class -> classTokens class = [].
Proof.
  unfold classTokens.
  induction 1 as [| c rest Hc _ IH]; cbn [map filter]; [reflexivity |].
  now rewrite Hc.
Qed.

Lemma addClasses_blank (p : element) (class : list string) :
  Forall (fun c => TrimSpace c = "") class -> addClasses p class = p.
Proof.
  intro H. rewrite addClasses_tokens, (classTokens_blank class H), app_nil_r.
  apply withClasses_same.
Qed.

(** A blank declaration is not dropped by [addStyles]: the empty string
    is appended. *)
Lemma addStyles_blank (p : element) (s : string) :
  TrimSpace s = "" -> styles (addStyles p [s]) = (styles p ++ [""])%list.
Proof.
  intro H. rewrite addStyles_entries. cbn [map].
  unfold styleEntry. rewrite H. now destruct p.
Qed.

(** C1, on the code: the attribute name ["  "] and the class tokens
    [""] and [" "] are dropped, class tokens [""; " "; "x"] leave
    [class="x"] only, but the style declaration ["  "] is appended as the
    empty string and a [style] attribute with an empty value is
    rendered. *)
Theorem blank_style_declaration_is_appended :
  attributes (addAttribute (Div []) "  " [anyString "v"]) = []
  /\ classes (addClasses (Div []) [""; " "; "x"]) = ["x"]
  /\ TrimSpace "  " = ""
  /\ styles (addStyles (Div []) ["  "]) = [""]
  /\ Stringer_String (ofElement (addStyles (Div []) ["  "]))
     = "<div style=" ++ dq ++ dq ++ "></div>".
Proof. repeat split. Qed.

(** ** Content *)

Lemma joined_app (a b : list string) :
  joined (a ++ b) = joined a ++ joined b.
Proof.
  unfold joined.
  induction a as [| x a IH]; cbn [app fold_right append]; [reflexivity |].
  now rewrite IH, append_assoc.
Qed.

Lemma builder_loop {A : Type} (f : A -> string) (l : list A) :
  forall acc : string,
    fold_left (fun s el => s ++ f el) l acc = acc ++ joined (map f l).
Proof.
  unfold joined.
  induction l as [| x l IH]; intro acc; cbn [fold_left map fold_right].
  - now rewrite append_empty_r.
  - now rewrite IH, append_assoc.
Qed.

Lemma getContent_joined (render : Stringer -> string) (p : element) :
  getContent render p = joined (map render (content p)).
Proof. unfold getContent. now rewrite builder_loop. Qed.

Lemma contentItems_text (items : list any) :
  joined (map Stringer_String (flat_map contentItems items))
  = joined (map contentText items).
Proof.
  induction items as [| v rest IH]; [reflexivity |].
  cbn [flat_map map]. rewrite map_app, joined_app, IH.
  destruct v; cbn; now rewrite ?append_empty_r.
Qed.

(** C6: [addContent] appends, in the order given, a [Stringer] as it is,
    a string as a raw-text entity, nothing for nil, and any other value
    as a raw-text entity of its default text; the children's text is the
    text of the arguments in that order, unescaped, and
    [nil, true, 123, "x"] renders as [true123x]. *)
Theorem addContent_dispatch (p : element) (items : list any) :
  content (addContent p items)
  = (content p ++ flat_map contentItems items)%list
  /\ (forall v : Stringer, contentItems (anyStringer v) = [v])
  /\ (forall s : string,
        contentItems (anyString s) = [ofRawStringEntity s]
        /\ Stringer_String (ofRawStringEntity s) = s)
  /\ contentItems anyNil = []
  /\ (forall b : bool,
        contentItems (anyBool b) = [ofRawStringEntity (FormatBool b)])
  /\ (forall z : Z,
        contentItems (anyInt z) = [ofRawStringEntity (FormatInt z)])
  /\ (forall text : string,
        contentItems (anyOther text) = [ofRawStringEntity text])
  /\ getContent Stringer_String (addContent p items)
     = getContent Stringer_String p ++ joined (map contentText items)
  /\ Stringer_String
       (ofElement (Container [anyNil; anyBool true; anyInt 123; anyString "x"]))
     = "true123x".
Proof.
  rewrite addContent_items.
  repeat split.
  rewrite !getContent_joined. cbn [content withContent].
  now rewrite map_app, joined_app, contentItems_text.
Qed.

(** ** Serialisation of an element with a tag *)

Lemma element_String_tagged (render : Stringer -> string) (p : element) :
  tag p <> "" ->
  element_String render p
  = "<" ++ tag p ++ attributeSuffix (attributes p) ++ classSuffix (classes p)
    ++ styleSuffix (styles p)
    ++ (if hasClosingTag p
        then ">" ++ getContent render p ++ "</" ++ tag p ++ ">"
        else "/>").
Proof.
  intro H. unfold element_String.
  apply String.eqb_neq in H. rewrite H.
  rewrite getAttributes_suffix, getClasses_suffix, getStyles_suffix.
  destruct (hasClosingTag p).
  - apply Sprintf_closed.
  - apply Sprintf_void.
Qed.

(** C5: a void element with a tag renders as [<tag], the attribute,
    class and style suffixes and [/>], and nothing else, whatever
    content was added to it. *)
Theorem void_element_render (p : element) (items : list any) :
  tag p <> "" ->
  hasClosingTag p = false ->
  Stringer_String (ofElement (addContent p items))
  = "<" ++ tag p ++ attributeSuffix (attributes p) ++ classSuffix (classes p)
    ++ styleSuffix (styles p) ++ "/>".
Proof.
  intros Htag Hvoid.
  rewrite addContent_items.
  cbn [Stringer_String].
  rewrite element_String_tagged by (now destruct p).
  destruct p as [t h a c s k]; cbn in *. now rewrite Hvoid.
Qed.

Lemma void_element_render_witness :
  let p := Id (newElement "img" false [anyString "x"]) "v" in
  tag p <> ""
  /\ hasClosingTag p = false
  /\ Stringer_String
       (ofElement (addContent p [anyStringer (ofElement (B []))]))
     = "<img id=" ++ dq ++ "v" ++ dq ++ "/>".
Proof.
  intro p.
  assert (Htag : tag p <> "") by discriminate.
  assert (Hvoid : hasClosingTag p = false) by reflexivity.
  exact (conj Htag (conj Hvoid
           (void_element_render p [anyStringer (ofElement (B []))] Htag Hvoid))).
Defined.

(** X19: after any sequence of setter calls on an element with a tag,
    the three sequences hold what the calls left, call after call and
    nothing removed; the opening tag is the tag name, then the attribute
    strings joined by spaces, then one [class] attribute of the tokens
    joined by spaces when there are any, then one [style] attribute of
    the stored declarations joined by spaces when there are any; a
    declaration that is not blank is stored with a final semicolon. *)
Theorem opening_tag_order (p : element) (cs : list call) :
  tag p <> "" ->
  let q := applyCalls p cs in
  attributes q = (attributes p ++ flat_map callAttributes cs)%list
  /\ classes q = (classes p ++ flat_map callClassTokens cs)%list
  /\ styles q = (styles p ++ flat_map callStyleEntries cs)%list
  /\ Stringer_String (ofElement q)
     = "<" ++ tag p ++ attributeSuffix (attributes q)
       ++ classSuffix (classes q) ++ styleSuffix (styles q)
       ++ (if hasClosingTag p
           then ">" ++ getContent Stringer_String p ++ "</" ++ tag p ++ ">"
           else "/>")
  /\ (forall d : string,
        TrimSpace d <> "" -> endsWith ";" (styleEntry d) = true).
Proof.
  intros Htag q. subst q.
  rewrite applyCalls_fields. cbn [attributes classes styles].
  repeat split.
  - cbn [Stringer_String]. now rewrite element_String_tagged.
  - apply styleEntry_semicolon.
Qed.

Lemma opening_tag_order_witness :
  tag (Div [anyString "hi"]) <> ""
  /\ Stringer_String
       (ofElement
          (applyCalls (Div [anyString "hi"])
             [ callStyles ["color:red"];
               callClasses ["a"; "b"];
               callAttribute "id" [anyString "x"];
               callClasses ["c"];
               callAttribute "id" [anyString "x"];
               callStyles ["margin:0;"];
               callAttribute "hidden" [] ]))
     = "<div id=" ++ dq ++ "x" ++ dq ++ " id=" ++ dq ++ "x" ++ dq ++ " hidden"
       ++ " class=" ++ dq ++ "a b c" ++ dq
       ++ " style=" ++ dq ++ "color:red; margin:0;" ++ dq ++ ">hi</div>"
  /\ endsWith ";" (styleEntry " color:red ") = true.
Proof.
  assert (Htag : tag (Div [anyString "hi"]) <> "") by discriminate.
  split; [exact Htag |].
  split.
  - exact (proj1 (proj2 (proj2 (proj2
             (opening_tag_order (Div [anyString "hi"]) _ Htag))))).
  - apply (proj2 (proj2 (proj2 (proj2
             (opening_tag_order (Div [anyString "hi"]) [] Htag))))).
    discriminate.
Defined.

(** C4, on the code: attributes, the class attribute and the style
    attribute come in that order and in insertion order, but a blank
    declaration between two others is stored as the empty string, which
    has no final semicolon, and the [style] attribute is rendered with
    it: its value is not the semicolon-terminated declarations joined by
    single spaces. *)
Theorem blank_declaration_in_style_attribute :
  let q :=
    addStyles (addClasses (addAttribute (Div []) "id" [anyString "x"]) ["a"])
      ["color:red"; ""; "margin:0;"] in
  styles q = ["color:red;"; ""; "margin:0;"]
  /\ endsWith ";" "" = false
  /\ ~ Forall (fun d => endsWith ";" d = true) (styles q)
  /\ Stringer_String (ofElement q)
     = "<div id=" ++ dq ++ "x" ++ dq ++ " class=" ++ dq ++ "a" ++ dq
       ++ " style=" ++ dq ++ "color:red;  margin:0;" ++ dq ++ "></div>".
Proof.
  intro q. repeat split.
  intro H.
  assert (Hin : In "" (styles q)) by (right; left; reflexivity).
  pose proof (proj1 (Forall_forall _ _) H "" Hin) as Hempty.
  discriminate Hempty.
Qed.

(** ** Values, tokens and declarations reach the output as they are *)

Lemma Substring_refl (x : string) : Substring x x.
Proof. exists "", "". cbn. now rewrite append_empty_r. Qed.

Lemma Substring_left (x s a : string) : Substring x s -> Substring x (a ++ s).
Proof.
  intros (pre & post & ->). exists (a ++ pre), post.
  now rewrite append_assoc.
Qed.

Lemma Substring_right (x s b : string) : Substring x s -> Substring x (s ++ b).
Proof.
  intros (pre & post & ->). exists pre, (post ++ b).
  now rewrite !append_assoc.
Qed.

Lemma Substring_trans (x y s : string) :
  Substring x y -> Substring y s -> Substring x s.
Proof.
  intros (pre & post & ->) Hy.
  destruct Hy as (pre' & post' & ->).
  exists (pre' ++ pre), (post ++ post').
  now rewrite !append_assoc.
Qed.

Lemma Substring_Join_last (l : list string) (x sep : string) :
  Substring x (Join (l ++ [x]) sep).
Proof.
  unfold Join.
  induction l as [| a l IH]; cbn [app String.concat].
  - apply Substring_refl.
  - destruct (l ++ [x])%list as [| y rest] eqn:E.
    + now destruct l.
    + now apply Substring_left, Substring_left.
Qed.

Lemma Substring_attributeSuffix (l : list string) (x : string) :
  Substring x (attributeSuffix (l ++ [x])).
Proof.
  unfold attributeSuffix.
  destruct (l ++ [x])%list as [| y rest] eqn:E; [now destruct l |].
  rewrite <- E. apply Substring_left, Substring_Join_last.
Qed.

Lemma Substring_classSuffix (l : list string) (x : string) :
  Substring x (classSuffix (l ++ [x])).
Proof.
  unfold classSuffix.
  destruct (l ++ [x])%list as [| y rest] eqn:E; [now destruct l |].
  rewrite <- E.
  apply Substring_left, Substring_left, Substring_right, Substring_Join_last.
Qed.

Lemma Substring_styleSuffix (l : list string) (x : string) :
  Substring x (styleSuffix (l ++ [x])).
Proof.
  unfold styleSuffix.
  destruct (l ++ [x])%list as [| y rest] eqn:E; [now destruct l |].
  rewrite <- E.
  apply Substring_left, Substring_left, Substring_right, Substring_Join_last.
Qed.

Lemma attributeEntries_value (attr : string) (v : any) (rest : list any) :
  TrimSpace attr <> "" ->
  attributeEntries attr (v :: rest)
  = [TrimSpace attr ++ "=" ++ dq ++ formatV v ++ dq].
Proof.
  intro H. unfold attributeEntries.
  apply String.eqb_neq in H. now rewrite H.
Qed.

Lemma classTokens_one (c : string) :
  TrimSpace c <> "" -> classTokens [c] = [TrimSpace c].
Proof.
  intro H. unfold classTokens. cbn [map filter].
  apply String.eqb_neq in H. now rewrite H.
Qed.

Lemma styleEntry_cases (s : string) :
  styleEntry s = TrimSpace s \/ styleEntry s = TrimSpace s ++ ";".
Proof.
  unfold styleEntry.
  destruct (negb (TrimSpace s =? "")%string && lastIsNot ";" (TrimSpace s));
    [now right | now left].
Qed.

(** C10: for a name that is not blank, [addAttribute] with a value
    appends the trimmed name, [="], the default text of the value as it
    is, and ["]; that text is part of the rendered element unchanged,
    also when it holds a double quote or an angle bracket.  A class
    token is stored and rendered as it is after trimming, and a style
    declaration too, up to the semicolon added at its end. *)
Theorem attribute_value_verbatim
  (p : element) (attr : string) (v : any) (rest : list any) :
  TrimSpace attr <> "" ->
  let entry := TrimSpace attr ++ "=" ++ dq ++ formatV v ++ dq in
  attributes (addAttribute p attr (v :: rest)) = (attributes p ++ [entry])%list
  /\ (tag p <> "" ->
      Substring entry
        (Stringer_String (ofElement (addAttribute p attr (v :: rest)))))
  /\ Stringer_String (ofElement (Id (Div []) ("a" ++ dq ++ "><b")))
     = "<div id=" ++ dq ++ "a" ++ dq ++ "><b" ++ dq ++ "></div>"
  /\ (forall c : string,
        TrimSpace c <> "" ->
        classes (addClasses p [c]) = (classes p ++ [TrimSpace c])%list
        /\ (tag p <> "" ->
            Substring (TrimSpace c)
              (Stringer_String (ofElement (addClasses p [c])))))
  /\ (forall s : string,
        TrimSpace s <> "" ->
        styles (addStyles p [s]) = (styles p ++ [styleEntry s])%list
        /\ (styleEntry s = TrimSpace s \/ styleEntry s = TrimSpace s ++ ";")
        /\ (tag p <> "" ->
            Substring (TrimSpace s)
              (Stringer_String (ofElement (addStyles p [s]))))).
Proof.
  intros Hattr entry. subst entry.
  rewrite addAttribute_entries, (attributeEntries_value attr v rest Hattr).
  split; [reflexivity |].
  split.
  { intro Htag. cbn [Stringer_String].
    rewrite element_String_tagged by exact Htag.
    cbn [tag attributes classes styles hasClosingTag withAttributes].
    apply Substring_left, Substring_left, Substring_right.
    apply Substring_attributeSuffix. }
  split; [reflexivity |].
  split.
  - intros c Hc.
    rewrite addClasses_tokens, (classTokens_one c Hc).
    split; [reflexivity |].
    intro Htag. cbn [Stringer_String].
    rewrite element_String_tagged by exact Htag.
    cbn [tag attributes classes styles hasClosingTag withClasses].
    apply Substring_left, Substring_left, Substring_left, Substring_right.
    apply Substring_classSuffix.
  - intros s Hs.
    rewrite addStyles_entries. cbn [map].
    split; [reflexivity |].
    split; [apply styleEntry_cases |].
    intro Htag. cbn [Stringer_String].
    rewrite element_String_tagged by exact Htag.
    cbn [tag attributes classes styles hasClosingTag withStyles].
    apply Substring_left, Substring_left, Substring_left, Substring_left,
      Substring_right.
    apply Substring_trans with (y := styleEntry s).
    + destruct (styleEntry_cases s) as [-> | ->].
      * apply Substring_refl.
      * apply Substring_right, Substring_refl.
    + apply Substring_styleSuffix.
Qed.

Lemma attribute_value_verbatim_witness :
  let v := anyString ("a" ++ dq ++ "><b") in
  let entry := "title=" ++ dq ++ "a" ++ dq ++ "><b" ++ dq in
  TrimSpace " title " <> ""
  /\ attributes (addAttribute (Div []) " title " [v]) = [entry]
  /\ Substring entry
       (Stringer_String (ofElement (addAttribute (Div []) " title " [v])))
  /\ classes (addClasses (Div []) [" a<b "]) = ["a<b"]
  /\ Substring "a<b"
       (Stringer_String (ofElement (addClasses (Div []) [" a<b "])))
  /\ styles (addStyles (Div []) ["x:" ++ dq]) = ["x:" ++ dq ++ ";"]
  /\ Substring ("x:" ++ dq)
       (Stringer_String (ofElement (addStyles (Div []) ["x:" ++ dq]))).
Proof.
  intros v entry.
  assert (Hattr : TrimSpace " title " <> "") by discriminate.
  assert (Htag : tag (Div []) <> "") by discriminate.
  destruct (attribute_value_verbatim (Div []) " title " v [] Hattr)
    as (Ha & Hsub & _ & Hclass & Hstyle).
  assert (Hc : TrimSpace " a<b " <> "") by discriminate.
  assert (Hs : TrimSpace ("x:" ++ dq) <> "") by discriminate.
  destruct (Hclass " a<b " Hc) as (Hc1 & Hc2).
  destruct (Hstyle ("x:" ++ dq) Hs) as (Hs1 & _ & Hs2).
  split; [exact Hattr |].
  split; [exact Ha |].
  split; [exact (Hsub Htag) |].
  split; [exact Hc1 |].
  split; [exact (Hc2 Htag) |].
  split; [exact Hs1 | exact (Hs2 Htag)].
Defined.

(** ** Escaped text *)

Lemma Replace_app (r : Replacer) (a b : string) :
  Replace r (a ++ b) = Replace r a ++ Replace r b.
Proof.
  induction a as [| x a IH]; cbn [append Replace]; [reflexivity |].
  now rewrite IH, append_assoc.
Qed.

Lemma reserved_false (b : ascii) :
  reserved b = false ->
  Ascii.eqb "&" b = false /\ Ascii.eqb "<" b = false
  /\ Ascii.eqb ">" b = false /\ Ascii.eqb dquote b = false
  /\ Ascii.eqb "'" b = false.
Proof.
  unfold reserved. intro H.
  repeat (apply orb_false_iff in H as [H ?]).
  now repeat split.
Qed.

Lemma replaceByte_other (b : ascii) :
  reserved b = false -> replaceByte htmlEscaper b = String b "".
Proof.
  intro H. apply reserved_false in H as (E1 & E2 & E3 & E4 & E5).
  unfold replaceByte, htmlEscaper, lookup.
  now rewrite E1, E2, E3, E4, E5.
Qed.

Lemma escape_noneReserved (s : string) :
  noneReserved s = true -> escapeStringEntity_String s = s.
Proof.
  unfold escapeStringEntity_String.
  induction s as [| b t IH]; cbn [noneReserved Replace]; [reflexivity |].
  intro H. apply andb_true_iff in H as [Hb Ht].
  apply negb_true_iff in Hb.
  now rewrite (replaceByte_other b Hb), (IH Ht).
Qed.

(** The claim C7 as it is worded fails at the double quote: what
    replaces it is a numeric character reference, not a named one. *)
Lemma double_quote_reference_is_numeric :
  escapeStringEntity_String dq = "&#34;"
  /\ isNamedReference (escapeStringEntity_String dq) = false
  /\ escapeStringEntity_String "'" = "&#39;"
  /\ isNamedReference (escapeStringEntity_String "'") = false.
Proof. repeat split. Qed.

(** C7, amended: rendering an escaped-text entity works byte by byte;
    it writes [&amp;], [&lt;], [&gt;] for [&], [<], [>] (named
    references) and [&#34;], [&#39;] for the double and the single quote
    (numeric references), and leaves every other byte as it is. *)
Theorem escaped_text_substitution :
  (forall s1 s2 : string,
     escapeStringEntity_String (s1 ++ s2)
     = escapeStringEntity_String s1 ++ escapeStringEntity_String s2)
  /\ escapeStringEntity_String "&" = "&amp;"
  /\ escapeStringEntity_String "<" = "&lt;"
  /\ escapeStringEntity_String ">" = "&gt;"
  /\ escapeStringEntity_String dq = "&#34;"
  /\ escapeStringEntity_String "'" = "&#39;"
  /\ (forall b : ascii,
        reserved b = false ->
        escapeStringEntity_String (String b "") = String b "")
  /\ (forall s : string,
        noneReserved s = true -> escapeStringEntity_String s = s)
  /\ (forall s : string,
        Stringer_String (ofEscapeStringEntity s) = escapeStringEntity_String s).
Proof.
  split; [intros; apply Replace_app |].
  do 5 (split; [reflexivity |]).
  split.
  - intros b Hb. unfold escapeStringEntity_String. cbn [Replace].
    now rewrite (replaceByte_other b Hb).
  - split; [apply escape_noneReserved | reflexivity].
Qed.

Lemma escaped_text_substitution_witness :
  (noneReserved "a b=c;" = true /\ escapeStringEntity_String "a b=c;" = "a b=c;")
  /\ (reserved "x" = false /\ escapeStringEntity_String "x" = "x").
Proof.
  destruct escaped_text_substitution as (_ & _ & _ & _ & _ & _ & Hb & Hs & _).
  split; split.
  - reflexivity.
  - apply (Hs "a b=c;"). reflexivity.
  - reflexivity.
  - apply (Hb "x"%char). reflexivity.
Defined.

(** ** Escaping and unescaping *)

Lemma unescape_escaped_byte (b : ascii) (rest : string) :
  unescapeFrom 0 (replaceByte htmlEscaper b ++ rest)
  = String b (unescapeFrom 0 rest).
Proof.
  destruct (Ascii.eqb "&" b) eqn:E1;
    [apply Ascii.eqb_eq in E1; subst b; reflexivity |].
  destruct (Ascii.eqb "<" b) eqn:E2;
    [apply Ascii.eqb_eq in E2; subst b; reflexivity |].
  destruct (Ascii.eqb ">" b) eqn:E3;
    [apply Ascii.eqb_eq in E3; subst b; reflexivity |].
  destruct (Ascii.eqb dquote b) eqn:E4;
    [apply Ascii.eqb_eq in E4; subst b; reflexivity |].
  destruct (Ascii.eqb "'" b) eqn:E5;
    [apply Ascii.eqb_eq in E5; subst b; reflexivity |].
  unfold replaceByte, htmlEscaper, lookup.
  rewrite E1, E2, E3, E4, E5.
  cbn [append unescapeFrom].
  unfold reference. cbn [HasPrefix].
  now rewrite E1.
Qed.

Lemma unescape_escape (s : string) :
  UnescapeString (escapeStringEntity_String s) = s.
Proof.
  unfold UnescapeString, escapeStringEntity_String.
  induction s as [| b t IH]; cbn [Replace]; [reflexivity |].
  now rewrite unescape_escaped_byte, IH.
Qed.

(** No escaped text is the single character [<]. *)
Lemma escape_is_not_lt (x : string) : escapeStringEntity_String x <> "<".
Proof.
  unfold escapeStringEntity_String.
  destruct x as [| b t]; cbn [Replace]; [discriminate |].
  unfold replaceByte, htmlEscaper, lookup.
  destruct (Ascii.eqb "&" b); [discriminate |].
  destruct (Ascii.eqb "<" b) eqn:E2; [discriminate |].
  destruct (Ascii.eqb ">" b); [discriminate |].
  destruct (Ascii.eqb dquote b); [discriminate |].
  destruct (Ascii.eqb "'" b); [discriminate |].
  cbn [append]. intro H. injection H as Hb _.
  subst b. discriminate E2.
Qed.

(** Whatever function undoes the escaping, the literal [&amp;] comes
    back from unescaping and escaping again. *)
Lemma amp_literal_comes_back (unescape : string -> string) :
  (forall s, unescape (escapeStringEntity_String s) = s) ->
  escapeStringEntity_String (unescape "&amp;") = "&amp;".
Proof.
  intro H. change "&amp;" with (escapeStringEntity_String "&") at 1.
  now rewrite H.
Qed.

(** The example the claim C3 gives does not show what it is given for:
    the literal [&amp;] is unescaped to [&], which is escaped to
    [&amp;] again. *)
Lemma amp_literal_round_trips :
  UnescapeString "&amp;" = "&"
  /\ escapeStringEntity_String (UnescapeString "&amp;") = "&amp;".
Proof. split; reflexivity. Qed.

(** C3, amended: unescaping the escaped form of any string gives the
    string back; escaping the unescaped form does not always give the
    text back, the literal [<] (or a bare [&]) being such a text,
    whatever the unescaping function is. *)
Theorem escape_round_trip :
  (forall s : string, UnescapeString (escapeStringEntity_String s) = s)
  /\ (forall s : string,
        UnescapeString (Stringer_String (ofEscapeStringEntity s)) = s)
  /\ escapeStringEntity_String (UnescapeString "<") <> "<"
  /\ escapeStringEntity_String (UnescapeString "&") <> "&"
  /\ (forall unescape : string -> string,
        escapeStringEntity_String (unescape "<") <> "<").
Proof.
  split; [exact unescape_escape |].
  split; [exact unescape_escape |].
  split; [apply escape_is_not_lt |].
  split; [discriminate |].
  intro unescape. apply escape_is_not_lt.
Qed.

(** ** Enumerated attributes *)

Lemma addAttribute_bare (p : element) (name : string) :
  TrimSpace name = name -> name <> "" ->
  attributes (addAttribute p name []) = (attributes p ++ [name])%list.
Proof.
  intros Htrim Hname. rewrite addAttribute_entries. unfold attributeEntries.
  rewrite Htrim. apply String.eqb_neq in Hname. now rewrite Hname.
Qed.

Lemma addAttribute_string (p : element) (name value : string) :
  TrimSpace name = name -> name <> "" ->
  attributes (addAttribute p name [anyString value])
  = (attributes p ++ [(name ++ "=" ++ dq ++ value ++ dq)%string])%list.
Proof.
  intros Htrim Hname. rewrite addAttribute_entries. unfold attributeEntries.
  rewrite Htrim. apply String.eqb_neq in Hname. now rewrite Hname.
Qed.

(** The claim C2 as it is worded fails at [dir]: the value is neither
    trimmed nor lowercased, and a value that is no token of the
    attribute is written out, not replaced by the bare name. *)
Lemma dir_value_is_passed_through :
  attributes (Dir Br "BOGUS") = ["dir=" ++ dq ++ "BOGUS" ++ dq]
  /\ attributes (Dir Br "BOGUS") <> ["dir"]
  /\ attributes (Dir Br " LTR ") = ["dir=" ++ dq ++ " LTR " ++ dq]
  /\ attributes (Dir Br " LTR ") <> ["dir=" ++ dq ++ "ltr" ++ dq].
Proof. repeat split; discriminate. Qed.

Section Enumerated.

Variable ToLower : string -> string.

(** C2, amended: [ContentEditable] lowercases and trims the value; it
    appends [contenteditable="v"] for the normalized value [v] when
    that is [true], [false] or [plaintext-only], and the bare name
    [contenteditable] otherwise, as without a value.  The other
    setters of enumerated attributes ([Dir], [Translate],
    [AutoCapitalize]) append [name="value"] with the value as it was
    given. *)
Theorem contenteditable_normalizes_dir_does_not
  (p : element) (v : string) (rest : list string) :
  let n := TrimSpace (ToLower v) in
  let q := ContentEditable ToLower p (Some (v :: rest)) in
  (n = "true" \/ n = "false" \/ n = "plaintext-only" ->
   option_map attributes q
   = Some (attributes p ++ [("contenteditable=" ++ dq ++ n ++ dq)%string])%list)
  /\ (n <> "true" -> n <> "false" -> n <> "plaintext-only" ->
      option_map attributes q = Some (attributes p ++ ["contenteditable"])%list)
  /\ option_map attributes (ContentEditable ToLower p None)
     = Some (attributes p ++ ["contenteditable"])%list
  /\ (forall value : string,
        attributes (Dir p value)
        = (attributes p ++ [("dir=" ++ dq ++ value ++ dq)%string])%list
        /\ attributes (Translate p value)
           = (attributes p ++ [("translate=" ++ dq ++ value ++ dq)%string])%list
        /\ attributes (AutoCapitalize p value)
           = (attributes p ++ [("autocapitalize=" ++ dq ++ value ++ dq)%string])%list).
Proof.
  intros n q. subst q. unfold ContentEditable. fold n.
  split; [| split; [| split]].
  - intro H.
    assert (Hc : Contains ["true"; "false"; "plaintext-only"] n = true).
    { unfold Contains. cbn [existsb].
      destruct H as [-> | [-> | ->]]; reflexivity. }
    rewrite Hc. cbn [negb option_map]. apply f_equal.
    apply addAttribute_string; [reflexivity | discriminate].
  - intros H1 H2 H3.
    assert (Hc : Contains ["true"; "false"; "plaintext-only"] n = false).
    { unfold Contains. cbn [existsb].
      apply String.eqb_neq in H1, H2, H3.
      now rewrite H1, H2, H3. }
    rewrite Hc. cbn [negb option_map]. apply f_equal.
    apply addAttribute_bare; [reflexivity | discriminate].
  - cbn [option_map]. apply f_equal.
    apply addAttribute_bare; [reflexivity | discriminate].
  - intro value. unfold Dir, Translate, AutoCapitalize.
    repeat split; apply addAttribute_string;
      solve [reflexivity | discriminate].
Qed.

End Enumerated.

Lemma contenteditable_normalizes_dir_does_not_witness :
  (TrimSpace (ToLowerASCII " Plaintext-ONLY ") = "plaintext-only"
   /\ option_map attributes
        (ContentEditable ToLowerASCII Br (Some [" Plaintext-ONLY "]))
      = Some ["contenteditable=" ++ dq ++ "plaintext-only" ++ dq])
  /\ (TrimSpace (ToLowerASCII "yes") = "yes"
      /\ option_map attributes (ContentEditable ToLowerASCII Br (Some ["yes"]))
         = Some ["contenteditable"]).
Proof.
  split; split.
  - reflexivity.
  - apply (proj1 (contenteditable_normalizes_dir_does_not
                    ToLowerASCII Br " Plaintext-ONLY " [])).
    right; right; reflexivity.
  - reflexivity.
  - apply (proj1 (proj2 (contenteditable_normalizes_dir_does_not
                           ToLowerASCII Br "yes" [])));
      discriminate.
Defined.

(** ** The root element *)

Lemma occurrences_preamble (rest : string) :
  occurrences preamble (preamble ++ rest) = S (occurrences preamble rest).
Proof. reflexivity. Qed.

Lemma applyCalls_tag (p : element) (cs : list call) :
  tag (applyCalls p cs) = tag p /\ hasClosingTag (applyCalls p cs) = hasClosingTag p.
Proof. now rewrite applyCalls_fields. Qed.

Lemma addContent_tag (p : element) (items : list any) :
  tag (addContent p items) = tag p
  /\ hasClosingTag (addContent p items) = hasClosingTag p.
Proof. now rewrite addContent_items. Qed.

Lemma HtmlElement_String_form (render : Stringer -> string) (p : element) :
  HtmlElement_String render p
  = preamble ++ "<" ++ tag p ++ attributeSuffix (attributes p)
    ++ classSuffix (classes p) ++ styleSuffix (styles p)
    ++ ">" ++ getContent render p ++ "</" ++ tag p ++ ">".
Proof.
  unfold HtmlElement_String.
  rewrite getAttributes_suffix, getClasses_suffix, getStyles_suffix.
  apply Sprintf_root.
Qed.

(** C8: the root element renders as the preamble followed at once by
    the opening tag, the children and the closing tag, whatever its
    fields hold; the preamble stands once before that markup; the root
    made by [Html], after any setter calls and added content, has the
    tag [html] and a closing tag, and renders as the preamble followed
    by what its element renders by itself. *)
Theorem root_preamble (p : element) :
  let markup :=
    "<" ++ tag p ++ attributeSuffix (attributes p) ++ classSuffix (classes p)
    ++ styleSuffix (styles p)
    ++ ">" ++ getContent Stringer_String p ++ "</" ++ tag p ++ ">" in
  Stringer_String (ofHtmlElement p) = preamble ++ markup
  /\ occurrences preamble (Stringer_String (ofHtmlElement p))
     = S (occurrences preamble markup)
  /\ (forall (items more : list any) (cs : list call),
        let root := addContent (applyCalls (Html items) cs) more in
        tag root = "html"
        /\ hasClosingTag root = true
        /\ Stringer_String (ofHtmlElement root)
           = preamble ++ Stringer_String (ofElement root))
  /\ occurrences preamble (Stringer_String (ofHtmlElement (Html []))) = 1
  /\ Stringer_String (ofHtmlElement (Html [anyStringer (ofHtmlElement (Html []))]))
     = preamble ++ "<html>" ++ preamble ++ "<html></html>" ++ "</html>".
Proof.
  intro markup. subst markup.
  cbn [Stringer_String]. rewrite HtmlElement_String_form.
  split; [reflexivity |].
  split; [apply occurrences_preamble |].
  split; [| split; reflexivity].
  intros items more cs.
  set (root := addContent (applyCalls (Html items) cs) more).
  assert (Htag : tag root = "html").
  { subst root. rewrite (proj1 (addContent_tag _ _)), (proj1 (applyCalls_tag _ _)).
    unfold Html, newElement. now rewrite (proj1 (addContent_tag _ _)). }
  assert (Hclose : hasClosingTag root = true).
  { subst root. rewrite (proj2 (addContent_tag _ _)), (proj2 (applyCalls_tag _ _)).
    unfold Html, newElement. now rewrite (proj2 (addContent_tag _ _)). }
  split; [exact Htag |]. split; [exact Hclose |].
  cbn [Stringer_String].
  rewrite HtmlElement_String_form, element_String_tagged
    by (rewrite Htag; discriminate).
  now rewrite Hclose.
Qed.

(* ================================================================== *)
(** * Rendering over the store *)
(* ================================================================== *)

Module HeapProperties.

Import Heap.

(** ** Reading computations *)

Lemma readOnly_ret {A : Type} (a : A) : readOnly (ret a).
Proof. intro h. reflexivity. Qed.

Lemma readOnly_fail {A : Type} : readOnly (@fail A).
Proof. intro h. reflexivity. Qed.

Lemma readOnly_load (p : ptr) : readOnly (load p).
Proof. intro h. reflexivity. Qed.

Lemma readOnly_bind {A B : Type} (m : M A) (k : A -> M B) :
  readOnly m -> (forall a, readOnly (k a)) -> readOnly (bind m k).
Proof.
  intros Hm Hk h. unfold bind.
  specialize (Hm h).
  destruct (m h) as [[a |] h'] eqn:E; cbn in Hm; subst h'.
  - apply Hk.
  - reflexivity.
Qed.

Ltac read_only :=
  repeat first
    [ apply readOnly_ret | apply readOnly_fail | apply readOnly_load
    | apply readOnly_bind; [| intro ]
    | assumption ].

Lemma readOnly_getAttributes (p : ptr) : readOnly (getAttributes p).
Proof. unfold getAttributes. read_only. Qed.

Lemma readOnly_getClasses (p : ptr) : readOnly (getClasses p).
Proof. unfold getClasses. read_only. Qed.

Lemma readOnly_getStyles (p : ptr) : readOnly (getStyles p).
Proof. unfold getStyles. read_only. Qed.

Section Render.

Variable render : Stringer -> M string.
Hypothesis render_reads : forall el, readOnly (render el).

Lemma readOnly_writeStrings (l : list Stringer) :
  forall s, readOnly (writeStrings render s l).
Proof.
  induction l as [| el l IH]; intro s; cbn [writeStrings].
  - apply readOnly_ret.
  - apply readOnly_bind; [apply render_reads | intro x; apply IH].
Qed.

Lemma readOnly_getContent (p : ptr) : readOnly (getContent render p).
Proof.
  unfold getContent.
  apply readOnly_bind; [apply readOnly_load | intro e].
  apply readOnly_writeStrings.
Qed.

Lemma readOnly_element_String (p : ptr) :
  readOnly (element_String render p).
Proof.
  unfold element_String.
  apply readOnly_bind; [apply readOnly_load | intro e].
  destruct (tag e =? "")%string; [| destruct (hasClosingTag e)];
    repeat first
      [ apply readOnly_ret
      | apply readOnly_getAttributes | apply readOnly_getClasses
      | apply readOnly_getStyles | apply readOnly_getContent
      | apply readOnly_bind; [| intro ] ].
Qed.

Lemma readOnly_HtmlElement_String (p : ptr) :
  readOnly (HtmlElement_String render p).
Proof.
  unfold HtmlElement_String.
  repeat first
    [ apply readOnly_ret | apply readOnly_load
    | apply readOnly_getAttributes | apply readOnly_getClasses
    | apply readOnly_getStyles | apply readOnly_getContent
    | apply readOnly_bind; [| intro ] ].
Qed.

End Render.

Lemma readOnly_Stringer_String (fuel : nat) :
  forall s, readOnly (Stringer_String fuel s).
Proof.
  induction fuel as [| fuel IH]; intro s; cbn [Stringer_String].
  - apply readOnly_fail.
  - destruct s as [p | p | c | c | text].
    + now apply readOnly_element_String.
    + now apply readOnly_HtmlElement_String.
    + apply readOnly_ret.
    + apply readOnly_ret.
    + apply readOnly_ret.
Qed.

Lemma bind_returns {A B : Type} (m : M A) (k : A -> M B) (h : heap) (a : A) :
  m h = (Some a, h) -> bind m k h = k a h.
Proof. intro H. unfold bind. now rewrite H. Qed.

(** What is rendered on the store of two elements. *)
Lemma render_twoElements :
  Stringer_String 3 (ofElement 0) twoElements
  = (Some ("<div hidden class=" ++ dq ++ "a" ++ dq ++ ">hi<b></b>&lt;</div>"),
     twoElements).
Proof. reflexivity. Qed.

(** A setter writes to the store, and the parent of the element it
    wrote to renders the change: the child is shared, not copied. *)
Lemma addClasses_writes :
  let h := snd (addClasses 1 ["x"] twoElements) in
  h <> twoElements
  /\ Stringer_String 3 (ofElement 0) h
     = (Some ("<div hidden class=" ++ dq ++ "a" ++ dq ++ ">hi<b class="
              ++ dq ++ "x" ++ dq ++ "></b>&lt;</div>"), h).
Proof. split; [discriminate | reflexivity]. Qed.

End HeapProperties.

(** ** The store renders as the tree it holds *)

Section RenderReified.

Variable render : Heap.Stringer -> Heap.M string.
Variable reifyItem : Heap.Stringer -> option Stringer.
Variable h : Heap.heap.

Hypothesis render_item :
  forall el t,
    reifyItem el = Some t -> render el h = (Some (Stringer_String t), h).

Lemma writeStrings_reified (l : list Heap.Stringer) :
  forall (ts : list Stringer) (acc : string),
    reifyAll reifyItem l = Some ts ->
    Heap.writeStrings render acc l h
    = (Some (fold_left (fun s el => s ++ Stringer_String el) ts acc), h).
Proof.
  induction l as [| el l IH]; intros ts acc H; cbn [reifyAll] in H.
  - injection H as <-. reflexivity.
  - destruct (reifyItem el) as [t |] eqn:Et; [| discriminate H].
    destruct (reifyAll reifyItem l) as [ts' |] eqn:El; [| discriminate H].
    injection H as <-.
    cbn [Heap.writeStrings fold_left].
    rewrite (HeapProperties.bind_returns _ _ _ _ (render_item el t Et)).
    now apply IH.
Qed.

Lemma getters_reified (p : Heap.ptr) (e : Heap.element) :
  nth_error h p = Some e ->
  Heap.getAttributes p h = (Some (getAttributes e), h)
  /\ Heap.getClasses p h = (Some (getClasses e), h)
  /\ Heap.getStyles p h = (Some (getStyles e), h).
Proof.
  intro Hp.
  unfold Heap.getAttributes, Heap.getClasses, Heap.getStyles,
    Heap.bind, Heap.load, Heap.ret.
  now rewrite Hp.
Qed.

Lemma getContent_reified (p : Heap.ptr) (t : element) :
  reifyElement reifyItem h p = Some t ->
  Heap.getContent render p h = (Some (getContent Stringer_String t), h).
Proof.
  unfold reifyElement. intro H.
  destruct (nth_error h p) as [e |] eqn:Hp; [| discriminate H].
  destruct (reifyAll reifyItem (content e)) as [ts |] eqn:Hc; [| discriminate H].
  injection H as <-.
  unfold Heap.getContent.
  rewrite (HeapProperties.bind_returns (Heap.load p) _ h e)
    by (unfold Heap.load; now rewrite Hp).
  now apply writeStrings_reified.
Qed.

Lemma element_String_reified (p : Heap.ptr) (t : element) :
  reifyElement reifyItem h p = Some t ->
  Heap.element_String render p h
  = (Some (element_String Stringer_String t), h)
  /\ Heap.HtmlElement_String render p h
     = (Some (HtmlElement_String Stringer_String t), h).
Proof.
  intro H. pose proof (getContent_reified p t H) as Hx.
  unfold reifyElement in H.
  destruct (nth_error h p) as [e |] eqn:Hp; [| discriminate H].
  destruct (reifyAll reifyItem (content e)) as [ts |] eqn:Hc; [| discriminate H].
  injection H as <-.
  destruct (getters_reified p e Hp) as (Ha & Hcl & Hs).
  unfold Heap.element_String, Heap.HtmlElement_String,
    element_String, HtmlElement_String.
  rewrite !(HeapProperties.bind_returns (Heap.load p) _ h e)
    by (unfold Heap.load; now rewrite Hp).
  cbn [tag hasClosingTag].
  split.
  - destruct (tag e =? "")%string; [| destruct (hasClosingTag e)];
      now rewrite ?(HeapProperties.bind_returns _ _ _ _ Ha),
        ?(HeapProperties.bind_returns _ _ _ _ Hcl),
        ?(HeapProperties.bind_returns _ _ _ _ Hs),
        ?(HeapProperties.bind_returns _ _ _ _ Hx).
  - now rewrite (HeapProperties.bind_returns _ _ _ _ Ha),
      (HeapProperties.bind_returns _ _ _ _ Hcl),
      (HeapProperties.bind_returns _ _ _ _ Hs),
      (HeapProperties.bind_returns _ _ _ _ Hx).
Qed.

End RenderReified.

(** With one call more than the depth of the tree, [String] on the
    store returns what [String] returns on the tree the store holds. *)
Lemma Stringer_String_reified (depth : nat) (h : Heap.heap) :
  forall (s : Heap.Stringer) (t : Stringer),
    reify depth h s = Some t ->
    Heap.Stringer_String (S depth) s h = (Some (Stringer_String t), h).
Proof.
  induction depth as [| d IH]; intros s t H.
  - destruct s; cbn [reify] in H; try discriminate H;
      injection H as <-; reflexivity.
  - destruct s as [p | p | c | c | text]; cbn [reify] in H;
      try (injection H as <-; reflexivity).
    + destruct (reifyElement (reify d h) h p) as [e |] eqn:He;
        [| discriminate H].
      injection H as <-.
      cbn [Heap.Stringer_String Stringer_String].
      exact (proj1 (element_String_reified _ _ h (IH) p e He)).
    + destruct (reifyElement (reify d h) h p) as [e |] eqn:He;
        [| discriminate H].
      injection H as <-.
      cbn [Heap.Stringer_String Stringer_String].
      exact (proj2 (element_String_reified _ _ h (IH) p e He)).
Qed.

(** C9: rendering leaves the store as it found it, every element in
    it with every field, whatever the element and whatever the depth
    allowed; and when the store holds a tree under the element,
    rendering returns the text of that tree, and rendering again
    returns the same text and the same store. *)
Theorem render_is_read_only (h : Heap.heap) (s : Heap.Stringer) :
  (forall fuel : nat, snd (Heap.Stringer_String fuel s h) = h)
  /\ (forall fuel : nat, snd (Heap.twice fuel s h) = h)
  /\ (forall (depth : nat) (t : Stringer),
        reify depth h s = Some t ->
        let out := Stringer_String t in
        Heap.Stringer_String (S depth) s h = (Some out, h)
        /\ Heap.twice (S depth) s h = (Some (out, out), h)).
Proof.
  split; [| split].
  - intro fuel. apply HeapProperties.readOnly_Stringer_String.
  - intro fuel. unfold Heap.twice.
    apply HeapProperties.readOnly_bind;
      [apply HeapProperties.readOnly_Stringer_String | intro x].
    apply HeapProperties.readOnly_bind;
      [apply HeapProperties.readOnly_Stringer_String | intro y].
    apply HeapProperties.readOnly_ret.
  - intros depth t H out.
    pose proof (Stringer_String_reified depth h s t H) as Hout.
    split; [exact Hout |].
    unfold Heap.twice.
    now rewrite (HeapProperties.bind_returns _ _ _ _ Hout),
      (HeapProperties.bind_returns _ _ _ _ Hout).
Qed.

Lemma render_is_read_only_witness :
  let t :=
    ofElement
      (mkElement "div" true ["hidden"] ["a"] []
         [ ofRawStringEntity "hi";
           ofElement (mkElement "b" true [] [] [] []);
           ofEscapeStringEntity "<" ]) in
  let out := "<div hidden class=" ++ dq ++ "a" ++ dq ++ ">hi<b></b>&lt;</div>" in
  reify 2 Heap.twoElements (Heap.ofElement 0) = Some t
  /\ Heap.Stringer_String 3 (Heap.ofElement 0) Heap.twoElements
     = (Some out, Heap.twoElements)
  /\ Heap.twice 3 (Heap.ofElement 0) Heap.twoElements
     = (Some (out, out), Heap.twoElements).
Proof.
  intros t out.
  assert (H : reify 2 Heap.twoElements (Heap.ofElement 0) = Some t)
    by reflexivity.
  split; [exact H |].
  exact (proj2 (proj2 (render_is_read_only Heap.twoElements (Heap.ofElement 0)))
           2 t H).
Defined.

(** A store with a cycle holds no tree, at any depth: the recursion of
    the source does not end on it. *)
Lemma cycle_holds_no_tree (depth : nat) :
  reify depth [mkElement "div" true [] [] [] [Heap.ofElement 0]]
    (Heap.ofElement 0)
  = None.
Proof.
  induction depth as [| d IH]; [reflexivity |].
  cbn [reify reifyElement nth_error content reifyAll]. now rewrite IH.
Qed.


(* ================================================================== *)
(** * Further properties *)
(* ================================================================== *)

(** ** Trimming keeps a word at the front *)

Lemma reverse_acc (s : string) :
  forall acc, reverse s acc = reverse s "" ++ acc.
Proof.
  induction s as [| b t IH]; intro acc; cbn [reverse]; [reflexivity |].
  rewrite (IH (String b acc)), (IH (String b "")).
  now rewrite append_assoc.
Qed.

Lemma reverse_app (a b : string) :
  reverse (a ++ b) "" = reverse b "" ++ reverse a "".
Proof.
  induction a as [| x a IH]; cbn [append reverse].
  - now rewrite append_empty_r.
  - rewrite (reverse_acc (a ++ b)), (reverse_acc a), IH.
    now rewrite append_assoc.
Qed.

Lemma reverse_involutive (s : string) : reverse (reverse s "") "" = s.
Proof.
  induction s as [| b t IH]; cbn [reverse]; [reflexivity |].
  rewrite (reverse_acc t), reverse_app, IH. reflexivity.
Qed.

Lemma wordByte_isByte (b : ascii) :
  wordByte b = true -> forall n, 128 <= n -> isByte n b = false.
Proof.
  unfold wordByte, isByte. intros H n Hn.
  apply andb_true_iff in H as [H _]. apply Nat.ltb_lt in H.
  apply Nat.eqb_neq. lia.
Qed.

Lemma wordByte_leb (b : ascii) :
  wordByte b = true -> Nat.leb 128 (nat_of_ascii b) = false.
Proof.
  unfold wordByte. intro H.
  apply andb_true_iff in H as [H _]. apply Nat.ltb_lt in H.
  apply Nat.leb_gt. exact H.
Qed.

Lemma wordByte_not_space (b : ascii) :
  wordByte b = true -> asciiSpace b = false.
Proof.
  unfold wordByte. intro H.
  apply andb_true_iff in H as [_ H]. now apply negb_true_iff in H.
Qed.

Ltac word_bytes H :=
  rewrite ?(wordByte_leb _ H), ?(wordByte_isByte _ H 128),
    ?(wordByte_isByte _ H 129), ?(wordByte_isByte _ H 133),
    ?(wordByte_isByte _ H 154), ?(wordByte_isByte _ H 159),
    ?(wordByte_isByte _ H 160), ?(wordByte_isByte _ H 168),
    ?(wordByte_isByte _ H 169), ?(wordByte_isByte _ H 175),
    ?(wordByte_isByte _ H 194), ?(wordByte_isByte _ H 225),
    ?(wordByte_isByte _ H 226), ?(wordByte_isByte _ H 227) by lia;
  btauto.

Lemma space2_word_l (b x : ascii) : wordByte b = true -> space2 b x = false.
Proof. intro H. unfold space2. word_bytes H. Qed.

Lemma space2_word_r (x b : ascii) : wordByte b = true -> space2 x b = false.
Proof. intro H. unfold space2. word_bytes H. Qed.

Lemma space3_word_1 (b x y : ascii) : wordByte b = true -> space3 b x y = false.
Proof. intro H. unfold space3. word_bytes H. Qed.

Lemma space3_word_2 (x b y : ascii) : wordByte b = true -> space3 x b y = false.
Proof. intro H. unfold space3. word_bytes H. Qed.

Lemma space3_word_3 (x y b : ascii) : wordByte b = true -> space3 x y b = false.
Proof. intro H. unfold space3. word_bytes H. Qed.

Lemma trimLeft_word (b : ascii) (t : string) :
  wordByte b = true -> trimLeft (String b t) = String b t.
Proof.
  intro H. cbn [trimLeft]. rewrite (wordByte_not_space b H).
  destruct t as [| b1 t1]; [reflexivity |].
  rewrite (space2_word_l b b1 H).
  destruct t1 as [| b2 t2]; [reflexivity |].
  now rewrite (space3_word_1 b b1 b2 H).
Qed.

Lemma trimLeftOfReversed_word (b : ascii) (t : string) :
  wordByte b = true -> trimLeftOfReversed (String b t) = String b t.
Proof.
  intro H. cbn [trimLeftOfReversed]. rewrite (wordByte_not_space b H).
  destruct t as [| b1 t1]; [reflexivity |].
  rewrite (space2_word_r b1 b H).
  destruct t1 as [| b2 t2]; [reflexivity |].
  now rewrite (space3_word_3 b2 b1 b H).
Qed.

(** Trimming the reversed string stops before a word at its end. *)
Lemma trimLeftOfReversed_keeps (b : ascii) (t : string) :
  wordByte b = true ->
  forall (n : nat) (rx : string),
    String.length rx <= n ->
    exists ry, trimLeftOfReversed (rx ++ String b t) = ry ++ String b t.
Proof.
  intros Hb n.
  induction n as [| n IH]; intros rx Hn.
  - destruct rx; [| cbn in Hn; lia].
    exists "". cbn [append]. now apply trimLeftOfReversed_word.
  - destruct rx as [| b0 rx].
    { exists "". cbn [append]. now apply trimLeftOfReversed_word. }
    cbn [String.length] in Hn.
    cbn [append trimLeftOfReversed].
    destruct (asciiSpace b0); [apply IH; lia |].
    destruct rx as [| b1 rx].
    { cbn [append]. rewrite (space2_word_l b b0 Hb).
      destruct t as [| b2 t2]; [now exists (String b0 "") |].
      rewrite (space3_word_2 b2 b b0 Hb). now exists (String b0 ""). }
    cbn [String.length] in Hn. cbn [append].
    destruct (space2 b1 b0); [apply IH; lia |].
    destruct rx as [| b2 rx].
    { cbn [append]. rewrite (space3_word_1 b b1 b0 Hb).
      now exists (String b0 (String b1 "")). }
    cbn [String.length] in Hn. cbn [append].
    destruct (space3 b2 b1 b0); [apply IH; lia |].
    now exists (String b0 (String b1 (String b2 rx))).
Qed.

Lemma asciiWord_app (a b : string) :
  asciiWord (a ++ b) = asciiWord a && asciiWord b.
Proof.
  induction a as [| x a IH]; cbn [append asciiWord]; [reflexivity |].
  now rewrite IH, andb_assoc.
Qed.

(** The last byte of a word that is not empty is a word byte. *)
Lemma asciiWord_reversed (s : string) :
  s <> "" -> asciiWord s = true ->
  exists b t, reverse s "" = String b t /\ wordByte b = true.
Proof.
  induction s as [| x s IH]; intros Hne H; [contradiction |].
  cbn [asciiWord] in H. apply andb_true_iff in H as [Hx Hs].
  cbn [reverse]. rewrite reverse_acc.
  destruct s as [| y s'].
  - exists x, "". now split.
  - destruct (IH ltac:(discriminate) Hs) as (b & t & E & Hb).
    rewrite E. cbn [append]. now exists b, (t ++ String x "").
Qed.

(** A word at the front of a string is not touched by [TrimSpace], and
    neither is what lies between it and the trailing white space. *)
Lemma TrimSpace_keeps_word (pre x : string) :
  pre <> "" -> asciiWord pre = true ->
  exists y, TrimSpace (pre ++ x) = pre ++ y.
Proof.
  intros Hne Hw. unfold TrimSpace.
  destruct pre as [| b pre']; [contradiction |].
  pose proof Hw as Hw'. cbn [asciiWord] in Hw'.
  apply andb_true_iff in Hw' as [Hb _].
  cbn [append]. rewrite (trimLeft_word b (pre' ++ x) Hb).
  change (String b (pre' ++ x)) with (String b pre' ++ x).
  unfold trimRight. rewrite reverse_app.
  destruct (asciiWord_reversed (String b pre') Hne Hw) as (c & t & E & Hc).
  rewrite E.
  destruct (trimLeftOfReversed_keeps c t Hc (String.length (reverse x ""))
              (reverse x "") (le_n _)) as [ry Hry].
  rewrite Hry, reverse_app, <- E, reverse_involutive.
  now exists (reverse ry "").
Qed.

(** A word is its own trimmed form. *)
Lemma TrimSpace_word (s : string) : asciiWord s = true -> TrimSpace s = s.
Proof.
  intro Hw. destruct s as [| b t]; [reflexivity |].
  pose proof Hw as Hw'. cbn [asciiWord] in Hw'.
  apply andb_true_iff in Hw' as [Hb _].
  unfold TrimSpace. rewrite (trimLeft_word b t Hb).
  unfold trimRight.
  destruct (asciiWord_reversed (String b t) ltac:(discriminate) Hw)
    as (c & t' & E & Hc).
  rewrite E, (trimLeftOfReversed_word c t' Hc), <- E.
  apply reverse_involutive.
Qed.

(** ** Attributes from other packages *)

Lemma bare_attributes (l : list string) :
  forall p : element,
    fold_left (fun p s => addAttribute p s []) l p
    = withAttributes p (attributes p ++ keptStrings l).
Proof.
  unfold keptStrings.
  induction l as [| s l IH]; intro p; cbn [fold_left map filter].
  - now rewrite app_nil_r, withAttributes_same.
  - rewrite IH, addAttribute_entries. unfold attributeEntries.
    destruct (TrimSpace s =? "")%string; cbn [negb].
    + now rewrite app_nil_r, withAttributes_same.
    + destruct p; unfold withAttributes; cbn. now rewrite <- app_assoc.
Qed.

Lemma keptStrings_app (a b : list string) :
  keptStrings (a ++ b) = (keptStrings a ++ keptStrings b)%list.
Proof. unfold keptStrings. now rewrite map_app, filter_app. Qed.

Lemma AddAttributes_fields (attrs : list external) :
  forall p : element,
    AddAttributes p attrs
    = withAttributes p
        (attributes p ++ keptStrings (flat_map externalStrings attrs)).
Proof.
  unfold AddAttributes.
  induction attrs as [| v attrs IH]; intro p; cbn [fold_left flat_map].
  - cbn. now rewrite app_nil_r, withAttributes_same.
  - rewrite IH, keptStrings_app.
    assert (Hv : match v with
                 | externalAttributes l _ =>
                   fold_left (fun p s => addAttribute p s []) l p
                 | externalStringerValue v => addAttribute p (Stringer_String v) []
                 | externalString v => addAttribute p v []
                 | externalOther => p
                 end
                 = withAttributes p (attributes p ++ keptStrings (externalStrings v))).
    { destruct v as [l opt | v | v |]; cbn [externalStrings].
      - apply bare_attributes.
      - apply (bare_attributes [Stringer_String v]).
      - apply (bare_attributes [v]).
      - cbn. now rewrite app_nil_r, withAttributes_same. }
    rewrite Hv. destruct p; unfold withAttributes; cbn.
    now rewrite <- app_assoc.
Qed.

(** X1: [AddAttributes] appends, argument after argument and string
    after string, the trimmed form of every string that is not blank,
    as a bare entry without a value; a value that is neither a list of
    attributes, nor a [Stringer], nor a string adds nothing; no other
    field of the element changes. *)
Theorem AddAttributes_entries (p : element) (attrs : list external) :
  let q := AddAttributes p attrs in
  attributes q
  = (attributes p ++ keptStrings (flat_map externalStrings attrs))%list
  /\ tag q = tag p
  /\ hasClosingTag q = hasClosingTag p
  /\ classes q = classes p
  /\ styles q = styles p
  /\ content q = content p.
Proof.
  intro q. subst q. rewrite AddAttributes_fields. now repeat split.
Qed.

(** X2: a value with a [GetAttributes] method stands for the strings of
    its list, passed one by one, whether or not it also has a [String]
    method, which is never called; and the arguments of one call can be
    split over two calls. *)
Theorem AddAttributes_flattens
  (p : element) (l : list string) (text : option string)
  (attrs more : list external) :
  AddAttributes p [externalAttributes l text]
  = AddAttributes p (map externalString l)
  /\ AddAttributes p (attrs ++ more)
     = AddAttributes (AddAttributes p attrs) more.
Proof.
  split.
  - rewrite !AddAttributes_fields. cbn [flat_map externalStrings].
    rewrite app_nil_r. f_equal. f_equal. f_equal.
    induction l as [| s l IH]; [reflexivity |].
    cbn [map flat_map externalStrings app]. now rewrite <- IH.
  - unfold AddAttributes. apply fold_left_app.
Qed.

(** ** Names written out in the package *)

Lemma attributeEntries_word (name : string) (value : list any) :
  name <> "" -> asciiWord name = true ->
  attributeEntries name value
  = match value with
    | [] => [name]
    | v :: _ => [name ++ "=" ++ dq ++ formatV v ++ dq]
    end.
Proof.
  intros Hne Hw. unfold attributeEntries.
  rewrite (TrimSpace_word name Hw).
  apply String.eqb_neq in Hne. now rewrite Hne.
Qed.

(** X5: an attribute name of ASCII bytes without white space is stored
    as it is: without a value the entry is the name, with a value it is
    [name="text"].  So [AutoFocus], [Inert] and [SpellCheck] append the
    bare name when called without an argument and [name="true"] or
    [name="false"] when called with one, [false] included, and panic on
    an empty slice that is not nil; [Draggable], [TabIndex] and
    [Hidden] append one entry at every call. *)
Theorem word_named_attribute (p : element) (name : string) :
  name <> "" -> asciiWord name = true ->
  attributes (addAttribute p name []) = (attributes p ++ [name])%list
  /\ (forall (v : any) (rest : list any),
        attributes (addAttribute p name (v :: rest))
        = (attributes p ++ [(name ++ "=" ++ dq ++ formatV v ++ dq)%string])%list)
  /\ (forall (b : bool) (rest : list bool),
        option_map attributes (AutoFocus p (Some (b :: rest)))
        = Some (attributes p ++ [("autofocus=" ++ dq ++ FormatBool b ++ dq)%string])%list
        /\ option_map attributes (Inert p (Some (b :: rest)))
           = Some (attributes p ++ [("inert=" ++ dq ++ FormatBool b ++ dq)%string])%list
        /\ option_map attributes (SpellCheck p (Some (b :: rest)))
           = Some (attributes p ++ [("spellcheck=" ++ dq ++ FormatBool b ++ dq)%string])%list
        /\ attributes (Draggable p b)
           = (attributes p ++ [("draggable=" ++ dq ++ FormatBool b ++ dq)%string])%list)
  /\ (forall z : Z,
        attributes (TabIndex p z)
        = (attributes p ++ [("tabindex=" ++ dq ++ FormatInt z ++ dq)%string])%list)
  /\ option_map attributes (AutoFocus p None)
     = Some (attributes p ++ ["autofocus"])%list
  /\ option_map attributes (Inert p None) = Some (attributes p ++ ["inert"])%list
  /\ option_map attributes (SpellCheck p None)
     = Some (attributes p ++ ["spellcheck"])%list
  /\ attributes (Hidden p) = (attributes p ++ ["hidden"])%list
  /\ AutoFocus p (Some []) = None
  /\ Inert p (Some []) = None
  /\ SpellCheck p (Some []) = None.
Proof.
  intros Hne Hw.
  split.
  { now rewrite addAttribute_entries, (attributeEntries_word name [] Hne Hw). }
  split.
  { intros v rest.
    now rewrite addAttribute_entries,
      (attributeEntries_word name (v :: rest) Hne Hw). }
  unfold AutoFocus, Inert, SpellCheck, Draggable, TabIndex, Hidden.
  cbn [option_map].
  repeat split; intros; try apply f_equal;
    rewrite addAttribute_entries, attributeEntries_word;
    solve [reflexivity | discriminate].
Qed.

Lemma word_named_attribute_witness :
  "data-x" <> "" /\ asciiWord "data-x" = true
  /\ attributes (addAttribute (Div []) "data-x" []) = ["data-x"].
Proof.
  assert (Hne : "data-x" <> "") by discriminate.
  assert (Hw : asciiWord "data-x" = true) by reflexivity.
  split; [exact Hne |]. split; [exact Hw |].
  exact (proj1 (word_named_attribute (Div []) "data-x" Hne Hw)).
Defined.

(** ** Prefixed names *)

Lemma prefixed_entry (p : element) (pre name value : string) :
  pre <> "" -> asciiWord pre = true ->
  exists y,
    TrimSpace (pre ++ name) = pre ++ y
    /\ attributes (addAttribute p (pre ++ name) [anyString value])
       = (attributes p ++ [(pre ++ y ++ "=" ++ dq ++ value ++ dq)%string])%list.
Proof.
  intros Hne Hw.
  destruct (TrimSpace_keeps_word pre name Hne Hw) as [y Hy].
  exists y. split; [exact Hy |].
  rewrite addAttribute_entries. unfold attributeEntries. rewrite Hy.
  destruct pre as [| b pre']; [contradiction |].
  cbn [append String.eqb formatV]. now rewrite append_assoc.
Qed.

(** X4: [Aria] and [Data] append one entry at every call, whatever the
    name, the empty and the blank name included: the entry starts with
    [aria-] or [data-] and ends with [="value"]; when the name is of
    ASCII bytes without white space the entry is [aria-name="value"] or
    [data-name="value"]. *)
Theorem Aria_Data_entry (p : element) (name value : string) :
  (exists y,
     attributes (Aria p name value)
     = (attributes p ++ [("aria-" ++ y ++ "=" ++ dq ++ value ++ dq)%string])%list)
  /\ (exists y,
        attributes (Data p name value)
        = (attributes p ++ [("data-" ++ y ++ "=" ++ dq ++ value ++ dq)%string])%list)
  /\ (asciiWord name = true ->
      attributes (Aria p name value)
      = (attributes p ++ [("aria-" ++ name ++ "=" ++ dq ++ value ++ dq)%string])%list
      /\ attributes (Data p name value)
         = (attributes p ++ [("data-" ++ name ++ "=" ++ dq ++ value ++ dq)%string])%list).
Proof.
  unfold Aria, Data.
  split; [| split].
  - destruct (prefixed_entry p "aria-" name value) as (y & _ & H);
      [discriminate | reflexivity |].
    now exists y.
  - destruct (prefixed_entry p "data-" name value) as (y & _ & H);
      [discriminate | reflexivity |].
    now exists y.
  - intro Hw.
    split; rewrite addAttribute_entries, attributeEntries_word;
      try discriminate;
      try (rewrite asciiWord_app, Hw; reflexivity);
      cbn [formatV]; now rewrite ?append_assoc.
Qed.

Lemma Aria_Data_entry_witness :
  asciiWord "label" = true
  /\ attributes (Aria (Div []) "label" "x")
     = ["aria-label=" ++ dq ++ "x" ++ dq].
Proof.
  assert (Hw : asciiWord "label" = true) by reflexivity.
  split; [exact Hw |].
  exact (proj1 (proj2 (proj2 (Aria_Data_entry (Div []) "label" "x")) Hw)).
Defined.

(** ** Events *)

Lemma sliceTo_short (s : string) :
  String.length s < 2 -> sliceTo s 2 = None.
Proof.
  destruct s as [| a [| b t]]; cbn; intro H; solve [reflexivity | lia].
Qed.

Lemma sliceTo_two (s : string) :
  2 <= String.length s ->
  exists a b t, s = String a (String b t)
                /\ sliceTo s 2 = Some (String a (String b "")).
Proof.
  destruct s as [| a [| b t]]; cbn [String.length]; intro H; try lia.
  exists a, b, t. split; reflexivity.
Qed.

(** X3: [On] lowercases the event name and slices its first two bytes
    off: with a lowercased name of fewer than two bytes the slice is out
    of range and the call panics; otherwise one entry is appended, whose
    name starts with [on] and which ends with [="script"], and no other
    field changes. *)
Theorem On_panics_or_appends
  (ToLower : string -> string) (p : element) (eventName script : string) :
  (String.length (ToLower eventName) < 2 ->
   On ToLower p eventName script = None)
  /\ (2 <= String.length (ToLower eventName) ->
      exists (q : element) (y : string),
        On ToLower p eventName script = Some q
        /\ attributes q
           = (attributes p ++ [("on" ++ y ++ "=" ++ dq ++ script ++ dq)%string])%list
        /\ tag q = tag p /\ hasClosingTag q = hasClosingTag p
        /\ classes q = classes p /\ styles q = styles p
        /\ content q = content p).
Proof.
  unfold On. split.
  - intro H. now rewrite (sliceTo_short _ H).
  - intro H. destruct (sliceTo_two _ H) as (a & b & t & Es & Eh).
    rewrite Eh.
    destruct (String a (String b "") =? "on")%string eqn:Ehead.
    + apply String.eqb_eq in Ehead. injection Ehead as -> ->.
      rewrite Es. change (String "o" (String "n" t)) with ("on" ++ t).
      destruct (prefixed_entry p "on" t script) as (y & _ & Hy);
        [discriminate | reflexivity |].
      eexists. exists y. split; [reflexivity |].
      split; [exact Hy |].
      rewrite addAttribute_entries. now repeat split.
    + destruct (prefixed_entry p "on" (ToLower eventName) script)
        as (y & _ & Hy); [discriminate | reflexivity |].
      eexists. exists y. split; [reflexivity |].
      split; [exact Hy |].
      rewrite addAttribute_entries. now repeat split.
Qed.

Lemma On_panics_or_appends_witness :
  (String.length (ToLowerASCII "X") < 2
   /\ On ToLowerASCII (Div []) "X" "f()" = None)
  /\ (2 <= String.length (ToLowerASCII "Click")
      /\ exists (q : element) (y : string),
           On ToLowerASCII (Div []) "Click" "f()" = Some q
           /\ attributes q = [("on" ++ y ++ "=" ++ dq ++ "f()" ++ dq)%string]).
Proof.
  assert (H1 : String.length (ToLowerASCII "X") < 2) by (cbn; lia).
  assert (H2 : 2 <= String.length (ToLowerASCII "Click")) by (cbn; lia).
  split.
  - split; [exact H1 |].
    exact (proj1 (On_panics_or_appends ToLowerASCII (Div []) "X" "f()") H1).
  - split; [exact H2 |].
    destruct (proj2 (On_panics_or_appends ToLowerASCII (Div []) "Click" "f()") H2)
      as (q & y & Hq & Ha & _).
    exists q, y. split; [exact Hq | exact Ha].
Defined.

(** ** No empty attribute, no empty class token *)

Lemma keptStrings_not_empty (l : list string) :
  Forall (fun s => s <> "") (keptStrings l).
Proof.
  unfold keptStrings. apply Forall_forall. intros s Hs.
  apply filter_In in Hs as [_ Hs].
  apply negb_true_iff in Hs. now apply String.eqb_neq in Hs.
Qed.

Lemma attributeEntries_not_empty (attr : string) (value : list any) :
  Forall (fun s => s <> "") (attributeEntries attr value).
Proof.
  unfold attributeEntries.
  destruct (TrimSpace attr =? "")%string eqn:E; [constructor |].
  apply String.eqb_neq in E.
  destruct value as [| v rest]; constructor; try constructor.
  - exact E.
  - destruct (TrimSpace attr); [contradiction | discriminate].
Qed.

Lemma callAttributes_not_empty (cs : list call) :
  Forall (fun s => s <> "") (flat_map callAttributes cs).
Proof.
  induction cs as [| c cs IH]; cbn [flat_map]; [constructor |].
  apply Forall_app. split; [| exact IH].
  destruct c; cbn [callAttributes];
    [apply attributeEntries_not_empty | constructor | constructor].
Qed.

Lemma callClassTokens_not_empty (cs : list call) :
  Forall (fun s => s <> "") (flat_map callClassTokens cs).
Proof.
  induction cs as [| c cs IH]; cbn [flat_map]; [constructor |].
  apply Forall_app. split; [| exact IH].
  destruct c; cbn [callClassTokens];
    [constructor | apply (keptStrings_not_empty class) | constructor].
Qed.

(** X6: the setters never store an empty attribute string or an empty
    class token: an element made by [newElement] has none after any
    sequence of [addAttribute], [addClasses] and [addStyles] calls
    followed by [AddAttributes], and an element that has none keeps
    having none. *)
Theorem no_empty_attribute_or_class
  (p : element) (cs : list call) (attrs : list external) :
  Forall (fun s => s <> "") (attributes p) ->
  Forall (fun s => s <> "") (classes p) ->
  let q := AddAttributes (applyCalls p cs) attrs in
  Forall (fun s => s <> "") (attributes q)
  /\ Forall (fun s => s <> "") (classes q)
  /\ (forall (tag : string) (closing : bool) (items : list any),
        let fresh := AddAttributes (applyCalls (newElement tag closing items) cs) attrs in
        Forall (fun s => s <> "") (attributes fresh)
        /\ Forall (fun s => s <> "") (classes fresh)).
Proof.
  intros Ha Hc q. subst q.
  rewrite AddAttributes_fields, applyCalls_fields.
  cbn [attributes classes withAttributes].
  split; [| split].
  - repeat (apply Forall_app; split);
      [exact Ha | apply callAttributes_not_empty | apply keptStrings_not_empty].
  - apply Forall_app. split; [exact Hc | apply callClassTokens_not_empty].
  - intros t closing items. cbv zeta.
    rewrite AddAttributes_fields, applyCalls_fields.
    unfold newElement. rewrite addContent_items.
    cbn [attributes classes withAttributes withContent].
    split.
    + repeat (apply Forall_app; split);
        [constructor | apply callAttributes_not_empty
        | apply keptStrings_not_empty].
    + apply Forall_app. split; [constructor | apply callClassTokens_not_empty].
Qed.

Lemma no_empty_attribute_or_class_witness :
  let q :=
    AddAttributes
      (applyCalls (Div [])
         [callAttribute "  " [anyString "v"]; callClasses [""; " a "; " "]])
      [externalString "  "; externalString "hx-boost"] in
  Forall (fun s => s <> "") (attributes (Div []))
  /\ Forall (fun s => s <> "") (classes (Div []))
  /\ Forall (fun s => s <> "") (attributes q)
  /\ Forall (fun s => s <> "") (classes q).
Proof.
  intro q.
  assert (Ha : Forall (fun s => s <> "") (attributes (Div []))) by constructor.
  assert (Hc : Forall (fun s => s <> "") (classes (Div []))) by constructor.
  split; [exact Ha |]. split; [exact Hc |].
  destruct (no_empty_attribute_or_class (Div [])
              [callAttribute "  " [anyString "v"]; callClasses [""; " a "; " "]]
              [externalString "  "; externalString "hx-boost"] Ha Hc)
    as (H1 & H2 & _).
  split; [exact H1 | exact H2].
Defined.

(** ** How the calls compose *)

(** X7: the four accumulating methods write to four different fields,
    so calls of two different methods can be exchanged. *)
Theorem accumulating_methods_commute
  (p : element) (attr : string) (value : list any)
  (class style : list string) (items : list any) :
  addClasses (addAttribute p attr value) class
  = addAttribute (addClasses p class) attr value
  /\ addStyles (addAttribute p attr value) style
     = addAttribute (addStyles p style) attr value
  /\ addStyles (addClasses p class) style
     = addClasses (addStyles p style) class
  /\ addContent (addAttribute p attr value) items
     = addAttribute (addContent p items) attr value
  /\ addContent (addClasses p class) items
     = addClasses (addContent p items) class
  /\ addContent (addStyles p style) items
     = addStyles (addContent p items) style.
Proof.
  rewrite !addAttribute_entries, !addClasses_tokens, !addStyles_entries,
    !addContent_items.
  now destruct p.
Qed.

(** X8: one call with several arguments does what one call for the
    first arguments followed by one call for the others does, for
    classes, styles and content. *)
Theorem one_call_or_several
  (p : element) (class class' style style' : list string)
  (items items' : list any) :
  addClasses p (class ++ class') = addClasses (addClasses p class) class'
  /\ addStyles p (style ++ style') = addStyles (addStyles p style) style'
  /\ addContent p (items ++ items') = addContent (addContent p items) items'
  /\ newElement (tag p) (hasClosingTag p) (items ++ items')
     = addContent (newElement (tag p) (hasClosingTag p) items) items'.
Proof.
  unfold newElement, addClasses, addStyles, addContent.
  now rewrite !fold_left_app.
Qed.

(** ** Elements without a tag *)

(** X9: an element without a tag renders as the text of its content
    arguments and nothing else: what the setters stored in it is never
    written; and putting the arguments in a [Container] (or a
    [Component]) first does not change what a parent renders. *)
Theorem untagged_is_transparent (p : element) (items : list any) :
  Stringer_String (ofElement (Container items)) = joined (map contentText items)
  /\ Component items = Container items
  /\ getContent Stringer_String
       (addContent p [anyStringer (ofElement (Container items))])
     = getContent Stringer_String (addContent p items)
  /\ (tag p = "" ->
      forall cs : list call,
        Stringer_String (ofElement (applyCalls p cs))
        = Stringer_String (ofElement p)).
Proof.
  assert (Hitems : forall (q : element) (l : list any),
             getContent Stringer_String (addContent q l)
             = getContent Stringer_String q ++ joined (map contentText l)).
  { intros q l. rewrite addContent_items, !getContent_joined.
    cbn [content withContent].
    now rewrite map_app, joined_app, contentItems_text. }
  assert (Hc : Stringer_String (ofElement (Container items))
               = joined (map contentText items)).
  { cbn [Stringer_String]. unfold element_String, Container, newElement.
    rewrite (proj1 (addContent_tag _ _)). cbn [tag String.eqb].
    rewrite Sprintf_v. now rewrite Hitems. }
  split; [exact Hc |].
  split; [reflexivity |].
  split.
  - rewrite !Hitems. cbn [map joined fold_right contentText formatV].
    now rewrite Hc, append_empty_r.
  - intros Htag cs. cbn [Stringer_String]. unfold element_String.
    rewrite (proj1 (applyCalls_tag p cs)), Htag. cbn [String.eqb].
    rewrite applyCalls_fields. reflexivity.
Qed.

(** ** What escaped text holds *)

Lemma hasByte_app (b : ascii) (x y : string) :
  hasByte b (x ++ y) = hasByte b x || hasByte b y.
Proof.
  induction x as [| c x IH]; cbn [append hasByte]; [reflexivity |].
  now rewrite IH, orb_assoc.
Qed.

Ltac by_escaper_case c :=
  unfold replaceByte, htmlEscaper, lookup;
  destruct (Ascii.eqb "&" c) eqn:E1; [reflexivity |];
  destruct (Ascii.eqb "<" c) eqn:E2; [reflexivity |];
  destruct (Ascii.eqb ">" c) eqn:E3; [reflexivity |];
  destruct (Ascii.eqb dquote c) eqn:E4; [reflexivity |];
  destruct (Ascii.eqb "'" c) eqn:E5; [reflexivity |].

Lemma replaceByte_no_markup (c : ascii) :
  hasByte "<" (replaceByte htmlEscaper c) = false
  /\ hasByte ">" (replaceByte htmlEscaper c) = false
  /\ hasByte dquote (replaceByte htmlEscaper c) = false
  /\ hasByte "'" (replaceByte htmlEscaper c) = false.
Proof.
  repeat split; by_escaper_case c; cbn [hasByte];
    now rewrite ?E2, ?E3, ?E4, ?E5.
Qed.

(** X10: the text an escaped-text entity renders holds none of the
    bytes [<], [>], double quote and single quote, whatever the string
    it was made from. *)
Theorem escaped_text_has_no_markup (s : string) :
  let out := Stringer_String (ofEscapeStringEntity s) in
  hasByte "<" out = false
  /\ hasByte ">" out = false
  /\ hasByte dquote out = false
  /\ hasByte "'" out = false.
Proof.
  cbn [Stringer_String]. unfold escapeStringEntity_String.
  induction s as [| c t (H1 & H2 & H3 & H4)]; cbn [Replace].
  - now repeat split.
  - destruct (replaceByte_no_markup c) as (R1 & R2 & R3 & R4).
    rewrite !hasByte_app, H1, H2, H3, H4, R1, R2, R3, R4.
    now repeat split.
Qed.

(** X11: two strings with the same escaped text are the same string. *)
Theorem escape_is_injective (s1 s2 : string) :
  escapeStringEntity_String s1 = escapeStringEntity_String s2 -> s1 = s2.
Proof.
  intro H.
  rewrite <- (unescape_escape s1), <- (unescape_escape s2).
  now rewrite H.
Qed.

Lemma escape_is_injective_witness :
  escapeStringEntity_String "a<b" = escapeStringEntity_String "a<b"
  /\ "a<b" = "a<b".
Proof.
  assert (H : escapeStringEntity_String "a<b" = escapeStringEntity_String "a<b")
    by reflexivity.
  exact (conj H (escape_is_injective "a<b" "a<b" H)).
Defined.

Lemma length_app (x y : string) :
  String.length (x ++ y) = String.length x + String.length y.
Proof.
  induction x as [| c x IH]; cbn [append String.length]; [reflexivity |].
  now rewrite IH.
Qed.

Lemma length_replaceByte (c : ascii) :
  1 <= String.length (replaceByte htmlEscaper c) <= 5
  /\ (reserved c = true -> 4 <= String.length (replaceByte htmlEscaper c)).
Proof.
  unfold replaceByte, htmlEscaper, lookup, reserved.
  destruct (Ascii.eqb "&" c); [cbn; lia |].
  destruct (Ascii.eqb "<" c); [cbn; lia |].
  destruct (Ascii.eqb ">" c); [cbn; lia |].
  destruct (Ascii.eqb dquote c); [cbn; lia |].
  destruct (Ascii.eqb "'" c); [cbn; lia |].
  cbn. split; [lia | discriminate].
Qed.

Lemma length_escape (s : string) :
  String.length s <= String.length (escapeStringEntity_String s)
  <= 5 * String.length s
  /\ (noneReserved s = false ->
      String.length s < String.length (escapeStringEntity_String s)).
Proof.
  unfold escapeStringEntity_String.
  induction s as [| c t ((Hlo & Hhi) & Hlt)];
    cbn [Replace String.length noneReserved].
  - split; [lia | discriminate].
  - rewrite length_app.
    destruct (length_replaceByte c) as ((Rlo & Rhi) & Rres).
    split; [lia |].
    intro H. apply andb_false_iff in H as [H | H].
    + apply negb_false_iff in H. specialize (Rres H). lia.
    + specialize (Hlt H). lia.
Qed.

(** X12: escaping never shortens a string and makes it at most five
    times as long; the strings that escaping leaves as they are are
    exactly those without any of the five reserved characters. *)
Theorem escape_fixed_points (s : string) :
  (escapeStringEntity_String s = s <-> noneReserved s = true)
  /\ String.length s <= String.length (escapeStringEntity_String s)
     <= 5 * String.length s.
Proof.
  destruct (length_escape s) as (Hlen & Hlt).
  split; [| exact Hlen].
  split.
  - intro H. destruct (noneReserved s) eqn:E; [reflexivity |].
    specialize (Hlt eq_refl). rewrite H in Hlt. lia.
  - apply escape_noneReserved.
Qed.

(** ** Text entities made from a format *)

Lemma doPrintf_no_percent (format : string) (args : list string) :
  hasByte "%" format = false ->
  forall argNum, doPrintf format args argNum = format.
Proof.
  induction format as [| c t IH]; intros H argNum; cbn [doPrintf];
    [reflexivity |].
  cbn [hasByte] in H. apply orb_false_iff in H as [Hc Ht].
  rewrite Ascii.eqb_sym, Hc. now rewrite (IH Ht).
Qed.

Lemma doPrintf_app (pre rest : string) (args : list string) :
  hasByte "%" pre = false ->
  forall argNum,
    doPrintf (pre ++ rest) args argNum = pre ++ doPrintf rest args argNum.
Proof.
  induction pre as [| c t IH]; intros H argNum; cbn [append]; [reflexivity |].
  cbn [hasByte] in H. apply orb_false_iff in H as [Hc Ht].
  cbn [doPrintf]. rewrite Ascii.eqb_sym, Hc. now rewrite (IH Ht).
Qed.

(** X15: for a text without a percent sign, [RawString(text)] is the
    raw-text entity a plain string argument becomes and renders as the
    text, and [EscapeString(text)] renders as the escaped text; a
    percent sign at the end of the text is a verb without a letter to
    the formatter, and the entity holds [%!(NOVERB)] in its place, which
    a plain string argument does not. *)
Theorem entity_from_text (text : string) :
  hasByte "%" text = false ->
  RawString text = ofRawStringEntity text
  /\ contentItems (anyStringer (RawString text)) = contentItems (anyString text)
  /\ Stringer_String (RawString text) = text
  /\ Stringer_String (EscapeString text) = escapeStringEntity_String text
  /\ Stringer_String (RawString (text ++ "%")) = text ++ "%!(NOVERB)"
  /\ joined (map Stringer_String (contentItems (anyString (text ++ "%"))))
     = text ++ "%".
Proof.
  intro H.
  assert (Hs : Sprintf text [] = text) by (apply doPrintf_no_percent; exact H).
  unfold RawString, EscapeString, rawString. cbn [map].
  rewrite Hs.
  repeat split.
  - cbn [Stringer_String rawStringEntity_String]. unfold Sprintf.
    now rewrite (doPrintf_app text "%" [] H).
  - cbn. now rewrite append_empty_r.
Qed.

Lemma entity_from_text_witness :
  hasByte "%" "a<b" = false
  /\ Stringer_String (EscapeString "a<b") = "a&lt;b"
  /\ Stringer_String (RawString ("a<b" ++ "%")) = "a<b%!(NOVERB)".
Proof.
  assert (H : hasByte "%" "a<b" = false) by reflexivity.
  destruct (entity_from_text "a<b" H) as (_ & _ & _ & He & Hp & _).
  split; [exact H |]. split; [exact He | exact Hp].
Defined.

(** ** Writing through a pointer *)

Lemma update_length (h : Heap.heap) :
  forall (p : Heap.ptr) (e : Heap.element),
    List.length (Heap.update h p e) = List.length h.
Proof.
  induction h as [| x h IH]; intros [| p] e; cbn; try reflexivity.
  now rewrite IH.
Qed.

Lemma update_at (h : Heap.heap) :
  forall (p : Heap.ptr) (e e' : Heap.element),
    nth_error h p = Some e -> nth_error (Heap.update h p e') p = Some e'.
Proof.
  induction h as [| x h IH]; intros [| p] e e' H; cbn in *;
    try discriminate; [reflexivity | now apply (IH p e)].
Qed.

Lemma update_elsewhere (h : Heap.heap) :
  forall (p q : Heap.ptr) (e : Heap.element),
    q <> p -> nth_error (Heap.update h p e) q = nth_error h q.
Proof.
  induction h as [| x h IH]; intros [| p] [| q] e H; cbn; try reflexivity.
  - contradiction.
  - apply IH. intro E. apply H. now rewrite E.
Qed.

Lemma update_twice (h : Heap.heap) :
  forall (p : Heap.ptr) (e e' : Heap.element),
    Heap.update (Heap.update h p e) p e' = Heap.update h p e'.
Proof.
  induction h as [| x h IH]; intros [| p] e e'; cbn; try reflexivity.
  now rewrite IH.
Qed.

Lemma update_same (h : Heap.heap) :
  forall (p : Heap.ptr) (e : Heap.element),
    nth_error h p = Some e -> Heap.update h p e = h.
Proof.
  induction h as [| x h IH]; intros [| p] e H; cbn in *; try discriminate.
  - now injection H as ->.
  - now rewrite (IH p e H).
Qed.

Lemma store_allocated (h : Heap.heap) (p : Heap.ptr) (e e' : Heap.element) :
  nth_error h p = Some e ->
  Heap.store p e' h = (Some tt, Heap.update h p e').
Proof.
  intro H. unfold Heap.store.
  assert (Hlt : p < List.length h) by (apply nth_error_Some; congruence).
  apply Nat.ltb_lt in Hlt. now rewrite Hlt.
Qed.

Lemma Heap_addClasses_allocated (class : list string) :
  forall (h : Heap.heap) (p : Heap.ptr) (e : Heap.element),
    nth_error h p = Some e ->
    Heap.addClasses p class h
    = (Some tt,
       Heap.update h p
         (mkElement (tag e) (hasClosingTag e) (attributes e)
            (classes e ++ keptStrings class) (styles e) (content e))).
Proof.
  unfold keptStrings.
  induction class as [| c class IH]; intros h p e H;
    cbn [Heap.addClasses map filter].
  - rewrite app_nil_r. unfold Heap.ret. f_equal.
    symmetry. apply update_same. now destruct e.
  - destruct (TrimSpace c =? "")%string; cbn [negb]; [now apply IH |].
    rewrite (HeapProperties.bind_returns (Heap.load p) _ h e)
      by (unfold Heap.load; now rewrite H).
    set (e1 := mkElement (tag e) (hasClosingTag e) (attributes e)
                 (classes e ++ [TrimSpace c]) (styles e) (content e)).
    unfold Heap.bind at 1. rewrite (store_allocated h p e e1 H).
    rewrite (IH (Heap.update h p e1) p e1 (update_at h p e e1 H)).
    rewrite update_twice. subst e1. cbn. now rewrite <- app_assoc.
Qed.

Lemma Heap_addClasses_dangling (class : list string) :
  forall (h : Heap.heap) (p : Heap.ptr),
    nth_error h p = None -> snd (Heap.addClasses p class h) = h.
Proof.
  induction class as [| c class IH]; intros h p H; cbn [Heap.addClasses];
    [reflexivity |].
  destruct (TrimSpace c =? "")%string; cbn [negb]; [now apply IH |].
  unfold Heap.bind at 1. unfold Heap.load. now rewrite H.
Qed.

(** X13: [addClasses] through a pointer to an allocated element
    returns, and afterwards that element has the kept tokens after its
    old classes (the same tokens as in the first model) and its other
    fields as before, every other element of the store is as before, and
    no element was added or removed; through a pointer to no element it
    writes nothing. *)
Theorem addClasses_writes_one_field
  (h : Heap.heap) (p : Heap.ptr) (class : list string) :
  (forall e : Heap.element,
     nth_error h p = Some e ->
     exists h' : Heap.heap,
       Heap.addClasses p class h = (Some tt, h')
       /\ nth_error h' p
          = Some (mkElement (tag e) (hasClosingTag e) (attributes e)
                    (classes e ++ keptStrings class) (styles e) (content e))
       /\ (forall q : Heap.ptr, q <> p -> nth_error h' q = nth_error h q)
       /\ List.length h' = List.length h
       /\ (forall t : element,
             classes t = classes e ->
             classes (addClasses t class)
             = (classes e ++ keptStrings class)%list))
  /\ (nth_error h p = None -> snd (Heap.addClasses p class h) = h).
Proof.
  split; [| apply Heap_addClasses_dangling].
  intros e H. eexists. split; [apply (Heap_addClasses_allocated class h p e H) |].
  split; [now apply (update_at h p e) |].
  split; [intros q Hq; now apply update_elsewhere |].
  split; [apply update_length |].
  intros t Ht. rewrite addClasses_tokens. cbn [classes withClasses].
  now rewrite Ht.
Qed.

Lemma addClasses_writes_one_field_witness :
  nth_error Heap.twoElements 1 = Some (mkElement "b" true [] [] [] [])
  /\ exists h' : Heap.heap,
       Heap.addClasses 1 [" x "; " "; "y"] Heap.twoElements = (Some tt, h')
       /\ nth_error h' 1 = Some (mkElement "b" true [] ["x"; "y"] [] [])
       /\ nth_error h' 0 = nth_error Heap.twoElements 0.
Proof.
  assert (H : nth_error Heap.twoElements 1 = Some (mkElement "b" true [] [] [] []))
    by reflexivity.
  split; [exact H |].
  destruct (proj1 (addClasses_writes_one_field Heap.twoElements 1
                     [" x "; " "; "y"]) _ H)
    as (h' & Hrun & Hp & Hq & _).
  exists h'. split; [exact Hrun |]. split; [exact Hp |].
  apply Hq. discriminate.
Defined.

(** ** An element among its own children *)

Lemma bind_fails {A B : Type} (m : Heap.M A) (k : A -> Heap.M B) (h : Heap.heap) :
  fst (m h) = None -> fst (Heap.bind m k h) = None.
Proof.
  unfold Heap.bind. destruct (m h) as [[a |] h']; cbn; intro H;
    [discriminate | reflexivity].
Qed.

Lemma writeStrings_fails
  (render : Heap.Stringer -> Heap.M string) (h : Heap.heap) (c : Heap.Stringer) :
  (forall el, Heap.readOnly (render el)) ->
  fst (render c h) = None ->
  forall l : list Heap.Stringer,
    In c l ->
    forall acc, fst (Heap.writeStrings render acc l h) = None.
Proof.
  intros Hread Hc.
  induction l as [| el l IH]; intros Hin acc; [contradiction |].
  cbn [Heap.writeStrings]. unfold Heap.bind.
  pose proof (Hread el h) as Hh.
  destruct (render el h) as [[x |] h'] eqn:E; cbn in Hh; subst h';
    [| reflexivity].
  destruct Hin as [-> | Hin].
  - rewrite E in Hc. discriminate Hc.
  - now apply IH.
Qed.

(** X14: an element that renders its children (it has no tag, or it
    has a closing tag) and is one of them is never rendered: whatever
    the depth allowed, [String] does not return.  The source does not
    guard against it. *)
Theorem own_child_is_not_rendered (h : Heap.heap) (p : Heap.ptr) :
  ownChild h p ->
  forall fuel : nat,
    fst (Heap.Stringer_String fuel (Heap.ofElement p) h) = None.
Proof.
  intros (e & Hp & Hrender & Hin) fuel.
  induction fuel as [| fuel IH]; [reflexivity |].
  cbn [Heap.Stringer_String].
  assert (Hcontent :
            fst (Heap.getContent (Heap.Stringer_String fuel) p h) = None).
  { unfold Heap.getContent.
    rewrite (HeapProperties.bind_returns (Heap.load p) _ h e)
      by (unfold Heap.load; now rewrite Hp).
    apply (writeStrings_fails _ h (Heap.ofElement p));
      [apply HeapProperties.readOnly_Stringer_String | exact IH | exact Hin]. }
  destruct (getters_reified h p e Hp) as (Ha & Hc & Hs).
  unfold Heap.element_String.
  rewrite (HeapProperties.bind_returns (Heap.load p) _ h e)
    by (unfold Heap.load; now rewrite Hp).
  destruct (tag e =? "")%string eqn:Et.
  - now apply bind_fails.
  - destruct Hrender as [Htag | Hclose];
      [rewrite Htag in Et; discriminate Et |].
    rewrite Hclose.
    rewrite (HeapProperties.bind_returns _ _ _ _ Ha),
      (HeapProperties.bind_returns _ _ _ _ Hc),
      (HeapProperties.bind_returns _ _ _ _ Hs).
    now apply bind_fails.
Qed.

Lemma own_child_is_not_rendered_witness :
  ownChild [mkElement "div" true [] [] [] [Heap.ofRawStringEntity "a"; Heap.ofElement 0]] 0
  /\ fst (Heap.Stringer_String 5 (Heap.ofElement 0)
            [mkElement "div" true [] [] [] [Heap.ofRawStringEntity "a"; Heap.ofElement 0]])
     = None.
Proof.
  assert (H : ownChild
                [mkElement "div" true [] [] [] [Heap.ofRawStringEntity "a"; Heap.ofElement 0]]
                0).
  { eexists. split; [reflexivity |]. split; [right; reflexivity |].
    right. left. reflexivity. }
  exact (conj H (own_child_is_not_rendered _ 0 H 5)).
Defined.

(** ** Elements as the constructors make them *)

(** X17: an element just made by [newElement] with a tag renders as
    [<tag>], the text of the content arguments in their order, and
    [</tag>] when it has a closing tag, as [<tag/>] and nothing of the
    arguments when it has none; and the root made by [Html] renders as
    the preamble, [<html>], that text and [</html>]. *)
Theorem fresh_element_renders (name : string) (items : list any) :
  name <> "" ->
  Stringer_String (ofElement (newElement name true items))
  = "<" ++ name ++ ">" ++ joined (map contentText items) ++ "</" ++ name ++ ">"
  /\ Stringer_String (ofElement (newElement name false items))
     = "<" ++ name ++ "/>"
  /\ Stringer_String (ofHtmlElement (Html items))
     = preamble ++ "<html>" ++ joined (map contentText items) ++ "</html>".
Proof.
  intro Hne.
  assert (Hitems : forall closing,
             getContent Stringer_String (newElement name closing items)
             = joined (map contentText items)).
  { intro closing. unfold newElement.
    rewrite addContent_items, getContent_joined. cbn [content withContent app].
    apply contentItems_text. }
  split; [| split].
  - cbn [Stringer_String].
    rewrite element_String_tagged
      by (unfold newElement; now rewrite (proj1 (addContent_tag _ _))).
    rewrite Hitems. unfold newElement. now rewrite addContent_items.
  - cbn [Stringer_String].
    rewrite element_String_tagged
      by (unfold newElement; now rewrite (proj1 (addContent_tag _ _))).
    unfold newElement. now rewrite addContent_items.
  - cbn [Stringer_String]. rewrite HtmlElement_String_form.
    unfold Html, newElement. rewrite addContent_items, getContent_joined.
    cbn [tag attributes classes styles content withContent app
           attributeSuffix classSuffix styleSuffix].
    now rewrite contentItems_text.
Qed.

Lemma fresh_element_renders_witness :
  "h1" <> ""
  /\ Stringer_String
       (ofElement (newElement "h1" true
                     [anyString "a"; anyNil; anyInt 7;
                      anyStringer (ofElement (newElement "b" true []))]))
     = "<h1>a7<b></b></h1>".
Proof.
  assert (H : "h1" <> "") by discriminate.
  split; [exact H |].
  exact (proj1 (fresh_element_renders "h1"
                  [anyString "a"; anyNil; anyInt 7;
                   anyStringer (ofElement (newElement "b" true []))] H)).
Defined.

(** X18: the example of the README, which is the function [two] of the
    test file, renders as the text the README gives for it, byte for
    byte. *)
Theorem readme_example_renders_as_documented :
  Stringer_String two = readmeOutput.
Proof. vm_compute. reflexivity. Qed.

(** ** What [ContentEditable] can write *)

(** X16: called with an empty slice that is not nil, [ContentEditable]
    panics; in every other call, whatever the value and whatever the
    lowercasing function, it appends one entry, which is one of
    [contenteditable], [contenteditable="true"],
    [contenteditable="false"] and [contenteditable="plaintext-only"];
    no other value is ever written. *)
Theorem ContentEditable_writes_a_known_value
  (ToLower : string -> string) (p : element) (value : variadic string) :
  (value = Some [] -> ContentEditable ToLower p value = None)
  /\ (value <> Some [] ->
      exists (q : element) (entry : string),
        ContentEditable ToLower p value = Some q
        /\ attributes q = (attributes p ++ [entry])%list
        /\ (entry = "contenteditable"
            \/ entry = "contenteditable=" ++ dq ++ "true" ++ dq
            \/ entry = "contenteditable=" ++ dq ++ "false" ++ dq
            \/ entry = "contenteditable=" ++ dq ++ "plaintext-only" ++ dq)).
Proof.
  split; [intros ->; reflexivity |].
  intro Hvalue. unfold ContentEditable.
  assert (Hbare : exists (q : element) (entry : string),
             Some (addAttribute p "contenteditable" []) = Some q
             /\ attributes q = (attributes p ++ [entry])%list
             /\ (entry = "contenteditable"
                 \/ entry = "contenteditable=" ++ dq ++ "true" ++ dq
                 \/ entry = "contenteditable=" ++ dq ++ "false" ++ dq
                 \/ entry = "contenteditable=" ++ dq ++ "plaintext-only" ++ dq)).
  { eexists. exists "contenteditable". split; [reflexivity |].
    split; [| now left].
    apply addAttribute_bare; [reflexivity | discriminate]. }
  destruct value as [[| v rest] |]; [contradiction | | exact Hbare].
  set (n := TrimSpace (ToLower v)).
  unfold Contains. cbn [existsb].
  destruct (n =? "true")%string eqn:E1.
  { apply String.eqb_eq in E1. rewrite E1. cbn [orb negb].
    eexists. eexists. split; [reflexivity |].
    split; [apply addAttribute_string; [reflexivity | discriminate] |].
    right; left; reflexivity. }
  destruct (n =? "false")%string eqn:E2.
  { apply String.eqb_eq in E2. rewrite E2. cbn [orb negb].
    eexists. eexists. split; [reflexivity |].
    split; [apply addAttribute_string; [reflexivity | discriminate] |].
    right; right; left; reflexivity. }
  destruct (n =? "plaintext-only")%string eqn:E3.
  { apply String.eqb_eq in E3. rewrite E3. cbn [orb negb].
    eexists. eexists. split; [reflexivity |].
    split; [apply addAttribute_string; [reflexivity | discriminate] |].
    right; right; right; reflexivity. }
  cbn [orb negb]. exact Hbare.
Qed.

Lemma ContentEditable_writes_a_known_value_witness :
  (@Some (list string) [] = Some []
   /\ ContentEditable ToLowerASCII (Div []) (Some []) = None)
  /\ (Some [" TRUE "] <> Some []
      /\ exists (q : element) (entry : string),
           ContentEditable ToLowerASCII (Div []) (Some [" TRUE "]) = Some q
           /\ attributes q = [entry]).
Proof.
  assert (H1 : @Some (list string) [] = Some []) by reflexivity.
  assert (H2 : Some [" TRUE "] <> @Some (list string) []) by discriminate.
  split.
  - split; [exact H1 |].
    exact (proj1 (ContentEditable_writes_a_known_value ToLowerASCII (Div [])
                    (Some [])) H1).
  - split; [exact H2 |].
    destruct (proj2 (ContentEditable_writes_a_known_value ToLowerASCII (Div [])
                       (Some [" TRUE "])) H2)
      as (q & entry & Hq & Ha & _).
    exists q, entry. split; [exact Hq | exact Ha].
Defined.

(** ** Instances *)

Lemma untagged_is_transparent_witness :
  let p := Container [anyString "a"; anyStringer (ofElement (B []))] in
  tag p = ""
  /\ Stringer_String
       (ofElement
          (applyCalls p [callAttribute "id" [anyString "x"]; callClasses ["c"]]))
     = "a<b></b>".
Proof.
  intro p.
  assert (H : tag p = "") by reflexivity.
  split; [exact H |].
  exact (proj2 (proj2 (proj2 (untagged_is_transparent p []))) H
           [callAttribute "id" [anyString "x"]; callClasses ["c"]]).
Defined.

Lemma escape_fixed_points_witness :
  noneReserved "a b;c" = true /\ escapeStringEntity_String "a b;c" = "a b;c".
Proof.
  assert (H : noneReserved "a b;c" = true) by reflexivity.
  split; [exact H |].
  exact (proj2 (proj1 (escape_fixed_points "a b;c")) H).
Defined.
